(** * TPSec front end: the simulated upload / analysis pipeline

    Shallow embedding of the [FileUpload] component (its source follows
    the [Sidebar] component in Frontend/src/components/Sidebar.tsx) and of
    the part of [App] (Frontend/src/App.tsx) that receives its
    [onFileUpload] callback.

    Modelling conventions.
    - The React state [files] is a list of records, updated by the
      functional updaters passed to [setFiles]; every callback
      (a call of [simulateFileProcessing], of [removeFile], or one firing of
      a browser timer) is one atomic step, its updater applied once.
    - A JavaScript number is an exact rational ([Q]); [Math.random()] is a
      draw [r] with [0 <= r < 1], supplied by the event that runs the
      callback, in the order the callback asks for them. The rounding of a
      product or a sum to the nearest double is not modelled. The statements
      on the size label, on the progress within a phase and on the last
      progress value of a phase are phrased so that it does not matter for
      them: they give ranges and orderings that rounding to nearest keeps
      (it is monotone, and it keeps [r * 5 < 5], [r * 9 < 9] and
      [p <= p + r * 30]), never the draw at which a digit or the test
      [>= 100] changes sides. The runs given with them use draws that are
      eighths or sixteenths, on which the products and sums of the code are
      exact in doubles as well, or the draw 0.9 of the scenario
      [untilAnalysed], whose products by 30 and by 25 round to 27 and to
      22.5.
    - The browser's timer table is a finite map from timer handles to the
      closure that was registered; a closure is identified by the callback
      it runs and the [fileName] it captured. A timer that was cleared, or
      a timeout that has fired, does not fire again. *)

From Stdlib Require Import QArith Qround Lqa.
From stdpp Require Import gmap strings list pretty.

Local Open Scope string_scope.
Local Open Scope list_scope.

Module FileUpload.

(** ** Data model *)

(** [status: 'uploading' | 'analyzing' | 'completed' | 'error'] *)
Inductive Status : Set := uploading | analyzing | completed | error.

Global Instance Status_eq_dec : EqDecision Status.
Proof. solve_decision. Defined.

(** [interface UploadedFile]; the optional field [issues?] is an option. *)
Record UploadedFile : Set := mkFile {
  name : string;
  size : string;
  status : Status;
  progress : Q;
  issues : option Z
}.

(** The closures handed to [setInterval] and [setTimeout]. *)
Inductive timer : Set :=
  | uploadInterval (fileName : string)
  | analysisTimeout (fileName : string)
  | analysisInterval (fileName : string).

Definition timerName (t : timer) : string :=
  match t with
  | uploadInterval n | analysisTimeout n | analysisInterval n => n
  end.

(** ** The effects a callback has besides its result: it draws random
    numbers and registers or clears timers. *)

Record env : Type := mkEnv {
  random : nat -> Q;
  timers : gmap nat timer;
  nextTimer : nat
}.

Definition M (A : Type) : Type := env -> A * env.

Definition ret {A} (a : A) : M A := fun w => (a, w).

Definition bind {A B} (m : M A) (k : A -> M B) : M B :=
  fun w => let '(a, w') := m w in k a w'.

Notation "x <- m ;; k" := (bind m (fun x => k))
  (at level 100, m at next level, right associativity).
Notation "m ;;; k" := (bind m (fun _ => k))
  (at level 100, right associativity).

Definition Math_random : M Q :=
  fun w => (random w 0%nat,
            mkEnv (fun i => random w (S i)) (timers w) (nextTimer w)).

Definition clearInterval (id : nat) : M unit :=
  fun w => (tt, mkEnv (random w) (delete id (timers w)) (nextTimer w)).

Definition register (t : timer) : M nat :=
  fun w => (nextTimer w,
            mkEnv (random w) (<[nextTimer w := t]> (timers w)) (S (nextTimer w))).

Definition setTimeout (t : timer) : M unit := register t ;;; ret tt.
Definition setInterval (t : timer) : M nat := register t.

(** [Array.prototype.map] with an effectful callback: left to right. *)
Fixpoint mapM {A B} (f : A -> M B) (l : list A) : M (list B) :=
  match l with
  | [] => ret []
  | a :: l' => b <- f a ;; bs <- mapM f l' ;; ret (b :: bs)
  end.

(** ** The callbacks of [simulateFileProcessing] *)

(** [`${Math.floor(Math.random() * 5 + 1)}.${Math.floor(Math.random() * 9)}MB`] *)
Definition sizeLabel (r1 r2 : Q) : string :=
  pretty (Qfloor (r1 * 5 + 1)) +:+ "." +:+ pretty (Qfloor (r2 * 9)) +:+ "MB".

Definition newFile (fileName : string) : M UploadedFile :=
  r1 <- Math_random ;;
  r2 <- Math_random ;;
  ret {| name := fileName; size := sizeLabel r1 r2;
         status := uploading; progress := 0; issues := None |}.

(** The callback of the [map] inside [uploadInterval]'s updater. *)
Definition uploadTick (fileName : string) (uploadInterval_id : nat)
    (file : UploadedFile) : M UploadedFile :=
  if decide (name file = fileName /\ status file = uploading) then
    r <- Math_random ;;
    let newProgress := (progress file + r * 30)%Q in
    if Qle_bool 100 newProgress then
      clearInterval uploadInterval_id ;;;
      setTimeout (analysisTimeout fileName) ;;;
      ret {| name := name file; size := size file;
             status := uploading; progress := 100; issues := issues file |}
    else
      ret {| name := name file; size := size file;
             status := status file; progress := newProgress;
             issues := issues file |}
  else ret file.

(** The callback of the [map] in the [setTimeout] closure. *)
Definition startAnalysis (fileName : string) (f : UploadedFile) : UploadedFile :=
  if decide (name f = fileName) then
    {| name := name f; size := size f;
       status := analyzing; progress := 0; issues := issues f |}
  else f.

(** The callback of the [map] inside [analysisInterval]'s updater. *)
Definition analysisTick (fileName : string) (analysisInterval_id : nat)
    (f : UploadedFile) : M UploadedFile :=
  if decide (name f = fileName /\ status f = analyzing) then
    r <- Math_random ;;
    let newProgress := (progress f + r * 25)%Q in
    if Qle_bool 100 newProgress then
      clearInterval analysisInterval_id ;;;
      r' <- Math_random ;;
      ret {| name := name f; size := size f;
             status := completed; progress := 100;
             issues := Some (Qfloor (r' * 8)) |}
    else
      ret {| name := name f; size := size f;
             status := status f; progress := newProgress;
             issues := issues f |}
  else ret f.

(** [prev => prev.filter(file => file.name !== fileName)] *)
Definition removeFile (fileName : string) (prev : list UploadedFile)
    : list UploadedFile :=
  filter (fun file => name file <> fileName) prev.

(** ** The component as a transition system *)

(** [files] is [FileUpload]'s state, [uploadedFiles] is [App]'s state, which
    [onFileUpload] appends to; the timer table is the browser's. *)
Record state : Type := mkState {
  files : list UploadedFile;
  uploadedFiles : list string;
  liveTimers : gmap nat timer;
  freshTimer : nat
}.

Definition init : state := mkState [] [] ∅ 0.

Inductive event : Type :=
  | Submit (fileName : string) (rs : nat -> Q)
  | Remove (fileName : string)
  | Fire (id : nat) (rs : nat -> Q).

Definition enter (rs : nat -> Q) (s : state) : env :=
  mkEnv rs (liveTimers s) (freshTimer s).

Definition leave (fs : list UploadedFile) (up : list string) (w : env) : state :=
  mkState fs up (timers w) (nextTimer w).

(** [simulateFileProcessing(fileName)], up to the return of the call: the
    record is appended, [onFileUpload] is called, the upload interval is
    registered. *)
Definition simulateFileProcessing (fileName : string) (rs : nat -> Q)
    (s : state) : state :=
  let '(file, w) := (f <- newFile fileName ;;
                     setInterval (uploadInterval fileName) ;;;
                     ret f) (enter rs s) in
  leave (files s ++ [file]) (uploadedFiles s ++ [fileName]) w.

(** One firing of the timer with handle [id]. A timeout is gone once it
    has fired; an interval stays until it is cleared. *)
Definition fire (id : nat) (rs : nat -> Q) (s : state) : state :=
  match liveTimers s !! id with
  | None => s
  | Some (uploadInterval fileName) =>
      let '(fs, w) := mapM (uploadTick fileName id) (files s) (enter rs s) in
      leave fs (uploadedFiles s) w
  | Some (analysisTimeout fileName) =>
      let '(_, w) := (clearInterval id ;;;
                      setInterval (analysisInterval fileName)) (enter rs s) in
      leave (map (startAnalysis fileName) (files s)) (uploadedFiles s) w
  | Some (analysisInterval fileName) =>
      let '(fs, w) := mapM (analysisTick fileName id) (files s) (enter rs s) in
      leave fs (uploadedFiles s) w
  end.

Definition step (e : event) (s : state) : state :=
  match e with
  | Submit fileName rs => simulateFileProcessing fileName rs s
  | Remove fileName =>
      mkState (removeFile fileName (files s)) (uploadedFiles s)
              (liveTimers s) (freshTimer s)
  | Fire id rs => fire id rs s
  end.

Fixpoint run (tr : list event) (s : state) : state :=
  match tr with
  | [] => s
  | e :: tr' => run tr' (step e s)
  end.

End FileUpload.

Import FileUpload.

(** * Vocabulary of the statements *)

(** ** Executions *)

(** Every draw of [Math.random()] lies in [[0, 1)]. *)
Definition validDraws (rs : nat -> Q) : Prop :=
  forall i, (0 <= rs i)%Q /\ (rs i < 1)%Q.

(** The draws an event brings are draws of [Math.random()]. *)
Definition validEvent (e : event) : Prop :=
  match e with
  | Submit _ rs | Fire _ rs => validDraws rs
  | Remove _ => True
  end.

(** The states the component can be in, from the empty mapping. *)
Inductive reachable : state -> Prop :=
  | reachable_init : reachable init
  | reachable_step e s :
      reachable s -> validEvent e -> reachable (step e s).

(** A finite list of draws, continued with [0], as a stream. *)
Definition draws (l : list Q) : nat -> Q := fun i => nth i l 0%Q.

(** The phase a ticker looks for, if it is a ticker. *)
Definition tickerPhase (t : timer) : option Status :=
  match t with
  | uploadInterval _ => Some uploading
  | analysisInterval _ => Some analyzing
  | analysisTimeout _ => None
  end.

(** ** One callback on one record *)

(** One draw of [Math.random()]. *)
Definition validDraw (r : Q) : Prop := (0 <= r)%Q /\ (r < 1)%Q.

(** The three outcomes of the upload ticker on a record. *)
Inductive uploadTicked (fileName : string) (f : UploadedFile)
    : UploadedFile -> Prop :=
  | upload_skip :
      ~ (name f = fileName /\ status f = uploading) ->
      uploadTicked fileName f f
  | upload_advance r :
      name f = fileName -> status f = uploading -> validDraw r ->
      (progress f + r * 30 < 100)%Q ->
      uploadTicked fileName f
        {| name := name f; size := size f; status := status f;
           progress := progress f + r * 30; issues := issues f |}
  | upload_full r :
      name f = fileName -> status f = uploading -> validDraw r ->
      (100 <= progress f + r * 30)%Q ->
      uploadTicked fileName f
        {| name := name f; size := size f; status := uploading;
           progress := 100; issues := issues f |}.

(** The three outcomes of the analysis ticker on a record. *)
Inductive analysisTicked (fileName : string) (f : UploadedFile)
    : UploadedFile -> Prop :=
  | analysis_skip :
      ~ (name f = fileName /\ status f = analyzing) ->
      analysisTicked fileName f f
  | analysis_advance r :
      name f = fileName -> status f = analyzing -> validDraw r ->
      (progress f + r * 25 < 100)%Q ->
      analysisTicked fileName f
        {| name := name f; size := size f; status := status f;
           progress := progress f + r * 25; issues := issues f |}
  | analysis_complete r r' :
      name f = fileName -> status f = analyzing -> validDraw r ->
      validDraw r' ->
      (100 <= progress f + r * 25)%Q ->
      analysisTicked fileName f
        {| name := name f; size := size f; status := completed;
           progress := 100; issues := Some (Qfloor (r' * 8)) |}.

(** ** Invariants *)

(** What holds of every record of a reachable state: progress stays in
    [[0, 100]] and below 100 while Analyzing; an Uploading record has no
    issue count; a Completed one is at 100 with a count in [[0, 8)]; the
    error phase is never entered. *)
Record wfFile (f : UploadedFile) : Prop := mkWf {
  wf_lo : (0 <= progress f)%Q;
  wf_hi : (progress f <= 100)%Q;
  wf_analyzing : status f = analyzing -> (progress f < 100)%Q;
  wf_uploading : status f = uploading -> issues f = None;
  wf_completed : status f = completed ->
    progress f = 100%Q /\ exists k, issues f = Some k /\ (0 <= k < 8)%Z;
  wf_no_error : status f <> error
}.

(** What identifies a record on the screen: its name and its size label. *)
Definition label (f : UploadedFile) : string * string := (name f, size f).

(** ** Scenarios *)

(** Four firings of an upload ticker with draw 0.9: 27, 54, 81, then 100. *)
Definition uploadRun (id : nat) : list event :=
  repeat (Fire id (draws [9 # 10])) 4.

(** One record taken from submission to the last Analyzing observation:
    upload ticker 0, timeout 1, analysis ticker 2 fired four times. *)
Definition untilAnalysed : list event :=
  [Submit "A.fig" (draws [])] ++ uploadRun 0 ++ [Fire 1 (draws [])] ++
  repeat (Fire 2 (draws [9 # 10])) 4.

(** The record completed with 4 issues, the same name submitted again and
    its upload ticker (3) run until the timeout (4) is pending. *)
Definition resubmitted : list event :=
  untilAnalysed ++ [Fire 2 (draws [9 # 10; 1 # 2])] ++
  [Submit "A.fig" (draws [])] ++ uploadRun 3.

(** The second submission's timeout fires, then its analysis ticker (5)
    runs to completion on both records. *)
Definition reanalysed : list event :=
  resubmitted ++ [Fire 4 (draws [])] ++
  repeat (Fire 5 (draws [9 # 10; 9 # 10; 9 # 10; 1 # 10])) 5.

(** One record taken into its analysis with draws of 0.875, which the
    products by 30 and by 25 keep free of rounding: upload ticker 0 (26.25,
    52.5, 78.75, then 100), timeout 1, one firing of analysis ticker 2
    (21.875). *)
Definition analysisStarted : list event :=
  [Submit "A.fig" (draws [])] ++ repeat (Fire 0 (draws [7 # 8])) 4 ++
  [Fire 1 (draws [])] ++ [Fire 2 (draws [7 # 8])].

(** While the record is Analyzing the same name is submitted again and the
    upload ticker of the second submission (3) runs until its timeout (4)
    is pending. *)
Definition resubmittedMidAnalysis : list event :=
  analysisStarted ++ [Submit "A.fig" (draws [])] ++
  repeat (Fire 3 (draws [7 # 8])) 4.

(** The second submission's timeout fires, then the first submission's
    analysis ticker (2) fires once more, with draws of 0.125. *)
Definition resumedAnalysis : list event :=
  resubmittedMidAnalysis ++
  [Fire 4 (draws []); Fire 2 (draws [1 # 8; 1 # 8])].

(** ** Names, timers and runs without repeated names *)

(** Timers registered while a timer of name [n] runs carry the name [n]. *)
Definition inherits (n : string) (old new : gmap nat timer) : Prop :=
  forall id t, new !! id = Some t -> old !! id = Some t \/ timerName t = n.

(** The event is a submission of [fileName]. *)
Definition isSubmitOf (fileName : string) (e : event) : Prop :=
  match e with
  | Submit m _ => m = fileName
  | _ => False
  end.

(** No record of the mapping has the name [n]. *)
Definition absent (n : string) (s : state) : Prop :=
  forall f, f ∈ files s -> name f <> n.

(** The timer table of a run without repeated names: every timer belongs
    to a submitted name and has a handle below the next one, and no two
    timers share a name. *)
Definition timersOk (U : list string) (tm : gmap nat timer) (fresh : nat)
    : Prop :=
  (forall id t, tm !! id = Some t -> timerName t ∈ U /\ (id < fresh)%nat) /\
  (forall id id' t t', tm !! id = Some t -> tm !! id' = Some t' ->
     timerName t = timerName t' -> id = id').

(** While a timeout for [n] is pending, the records named [n] are
    Uploading, at 100. *)
Definition fullOk (tm : gmap nat timer) (fs : list UploadedFile) : Prop :=
  forall id n f, tm !! id = Some (analysisTimeout n) ->
    f ∈ fs -> name f = n -> status f = uploading /\ progress f = 100%Q.

(** Before it is Completed a record carries no issue count. *)
Definition noEarlyIssues (f : UploadedFile) : Prop :=
  status f <> completed -> issues f = None.

(** The invariant of the runs in which no name is submitted twice
    ([uploadedFiles] has no duplicate): names of records and timers were
    submitted, there is one record and at most one timer per name, and a
    pending timeout finds its record full. *)
Record uniqueInv (s : state) : Prop := mkInv {
  inv_files : forall f, f ∈ files s -> name f ∈ uploadedFiles s;
  inv_names : NoDup (map name (files s));
  inv_timers : timersOk (uploadedFiles s) (liveTimers s) (freshTimer s);
  inv_full : fullOk (liveTimers s) (files s)
}.

(** ** Runs in which one name is submitted once *)





(** * The rest of the component and its callers

    [FileUpload]'s other handlers and what it renders for a record
    (Frontend/src/components/Sidebar.tsx, after the [Sidebar] component),
    and the aggregates of the report views. *)

(** ** File lists *)

(** [fileList.forEach(file => simulateFileProcessing(file.name))]: the calls
    in list order, each with the draws it takes. *)
Fixpoint processFiles (fileList : list (string * (nat -> Q))) (s : state)
    : state :=
  match fileList with
  | [] => s
  | (fileName, rs) :: rest => processFiles rest (simulateFileProcessing fileName rs s)
  end.

(** The component: its [isDragOver] flag beside the state modelled above. *)
Record component : Type := mkComponent {
  isDragOver : bool;
  core : state
}.

Definition handleDragOver (c : component) : component :=
  mkComponent true (core c).

Definition handleDragLeave (c : component) : component :=
  mkComponent false (core c).

(** [handleDrop]: [setIsDragOver(false)], then every dropped file. *)
Definition handleDrop (droppedFiles : list (string * (nat -> Q)))
    (c : component) : component :=
  mkComponent false (processFiles droppedFiles (core c)).

(** [handleFileSelect]: [e.target.files || []], [None] being [null]. *)
Definition handleFileSelect (targetFiles : option (list (string * (nat -> Q))))
    (c : component) : component :=
  mkComponent (isDragOver c) (processFiles (default [] targetFiles) (core c)).

(** The record [simulateFileProcessing] builds from a name and its draws. *)
Definition freshRecord (p : string * (nat -> Q)) : UploadedFile :=
  {| name := fst p; size := sizeLabel (snd p 0%nat) (snd p 1%nat);
     status := uploading; progress := 0; issues := None |}.

Definition submitOf (p : string * (nat -> Q)) : event := Submit (fst p) (snd p).

(** ** Counting the events of a run *)

(** The names submitted in a run, in order. *)
Fixpoint submitted (tr : list event) : list string :=
  match tr with
  | [] => []
  | Submit fileName _ :: tr' => fileName :: submitted tr'
  | _ :: tr' => submitted tr'
  end.

(** The number of timer firings in a run. *)
Fixpoint firings (tr : list event) : nat :=
  match tr with
  | [] => 0
  | Fire _ _ :: tr' => S (firings tr')
  | _ :: tr' => firings tr'
  end.

Definition isRemove (e : event) : Prop :=
  match e with
  | Remove _ => True
  | _ => False
  end.

(** Every live handle was handed out before. *)
Definition handlesOk (s : state) : Prop :=
  forall id t, liveTimers s !! id = Some t -> (id < freshTimer s)%nat.

(** ** What is rendered for a record *)

Inductive icon : Set := CheckCircle | AlertCircle | FileImage.

(** [getStatusIcon(status)]; the [default] branch serves the two active
    phases. *)
Definition getStatusIcon (st : Status) : icon :=
  match st with
  | completed => CheckCircle
  | error => AlertCircle
  | _ => FileImage
  end.

(** The values of the JSX expressions of [getStatusBadge]: JavaScript
    values ([undefined], booleans, numbers), text and the two elements. *)
#[warnings="-register-all"]
Inductive node : Type :=
  | nUndefined
  | nBool (b : bool)
  | nNumber (n : Z)
  | nText (t : string)
  | nBadge (variant : string) (children : list node)
  | nDiv (children : list node).

(** JavaScript truthiness and [a && b]. *)
Definition truthy (v : node) : bool :=
  match v with
  | nUndefined => false
  | nBool b => b
  | nNumber n => negb (n =? 0)%Z
  | nText t => negb (String.eqb t "")
  | nBadge _ _ | nDiv _ => true
  end.

Definition jsAnd (a b : node) : node := if truthy a then b else a.

(** React puts nothing in the page for [undefined] and booleans; a number
    is shown as text, 0 included. *)
Definition rendersNothing (v : node) : bool :=
  match v with
  | nUndefined | nBool _ => true
  | _ => false
  end.

(** The optional field [file.issues] as a value, and [file.issues > 0]
    ([undefined > 0] is [false]). *)
Definition issuesValue (o : option Z) : node :=
  match o with
  | Some n => nNumber n
  | None => nUndefined
  end.

Definition issuesPositive (o : option Z) : bool :=
  match o with
  | Some n => (0 <? n)%Z
  | None => false
  end.

(** [getStatusBadge(file)]. *)
Definition getStatusBadge (file : UploadedFile) : node :=
  match status file with
  | uploading => nBadge "outline" [nText "Uploading"]
  | analyzing => nBadge "outline" [nText "Analyzing"]
  | completed =>
      nDiv [ nBadge "secondary" [nText "Complete"];
             jsAnd (issuesValue (issues file))
               (jsAnd (nBool (issuesPositive (issues file)))
                  (nBadge "destructive"
                     [issuesValue (issues file); nText " issues"])) ]
  | error => nBadge "destructive" [nText "Error"]
  end.

(** [Math.round]: to the nearest integer, halves upwards. *)
Definition Math_round (x : Q) : Z := Qfloor (x + (1 # 2)).

(** The progress row is rendered under
    [file.status === 'uploading' || file.status === 'analyzing']. *)
Definition showsProgress (file : UploadedFile) : bool :=
  bool_decide (status file = uploading \/ status file = analyzing).

(** [{Math.round(file.progress)}%] *)
Definition progressText (file : UploadedFile) : string :=
  pretty (Math_round (progress file)) +:+ "%".

(** The event is a firing of the handle [id]. *)
Definition firesHandle (id : nat) (e : event) : Prop :=
  match e with
  | Fire i _ => i = id
  | _ => False
  end.

(** A Completed record has no live timer of its name. *)
Definition completedQuiet (s : state) : Prop :=
  forall f id t, f ∈ files s -> status f = completed ->
    liveTimers s !! id = Some t -> timerName t <> name f.

(** How far a record is through the analysis: its progress while
    Analyzing, 100 once Completed, 0 before. *)
Definition analysisWork (f : UploadedFile) : Q :=
  match status f with
  | analyzing => progress f
  | completed => 100
  | _ => 0
  end.

(** [k] as a number. *)
Definition count (k : nat) : Q := inject_Z (Z.of_nat k).

(** ** The report views

    [AccessibilityReport] (Frontend/src/components/AccessibilityReport.tsx)
    computes three aggregates over its categories; it and its siblings
    [ComplianceReport] and [SecurityFindings] map a severity to a badge
    variant. The category list is a parameter here. *)

Module Reports.

Record reportIssue : Set := mkIssue {
  severity : string;
  title : string;
  description : string;
  guideline : string;
  location : string;
  impact : string;
  recommendation : string
}.

Record category : Set := mkCategory {
  id : string;
  name : string;
  score : Z;
  issues : list reportIssue
}.

(** [categories.reduce((sum, cat) => sum + cat.score, 0)] *)
Definition scoreSum (categories : list category) : Z :=
  fold_left (fun sum cat => (sum + score cat)%Z) categories 0%Z.

(** [Math.round(scoreSum / categories.length)]; [None] is [NaN], the
    result for no category (0 / 0). *)
Definition overallScore (categories : list category) : option Z :=
  match categories with
  | [] => None
  | _ => Some (Math_round (inject_Z (scoreSum categories) /
                           inject_Z (Z.of_nat (length categories))))
  end.

(** [categories.reduce((sum, cat) => sum + cat.issues.length, 0)] *)
Definition totalIssues (categories : list category) : nat :=
  fold_left (fun sum cat => (sum + length (issues cat))%nat) categories 0%nat.

(** [categories.reduce((sum, cat) =>
       sum + cat.issues.filter(issue => issue.severity === 'high').length, 0)] *)
Definition highPriorityIssues (categories : list category) : nat :=
  fold_left
    (fun sum cat =>
       (sum + length (filter (fun issue => severity issue = "high")
                             (issues cat)))%nat)
    categories 0%nat.

(** [getSeverityColor] of [AccessibilityReport] and of [ComplianceReport]. *)
Definition getSeverityColor (sev : string) : string :=
  if decide (sev = "high") then "destructive"
  else if decide (sev = "medium") then "default"
  else if decide (sev = "low") then "secondary"
  else "secondary".

(** [getSeverityColor] of [SecurityFindings]. *)
Definition getSeverityColor_security (sev : string) : string :=
  if decide (sev = "critical") then "destructive"
  else if decide (sev = "high") then "destructive"
  else if decide (sev = "medium") then "default"
  else if decide (sev = "low") then "secondary"
  else "secondary".

End Reports.

(** * Properties *)

(** ** Generic facts on the effectful [map] *)

Section MapM.
Context {A B : Type} (f : A -> M B).

Lemma mapM_cons a l w :
  mapM f (a :: l) w =
    (fst (f a w) :: fst (mapM f l (snd (f a w))),
     snd (mapM f l (snd (f a w)))).
Proof.
  simpl. unfold bind, ret.
  destruct (f a w) as [b w1]. simpl.
  destruct (mapM f l w1) as [bs w2]. reflexivity.
Qed.

Lemma mapM_app l1 l2 w :
  mapM f (l1 ++ l2) w =
    (fst (mapM f l1 w) ++ fst (mapM f l2 (snd (mapM f l1 w))),
     snd (mapM f l2 (snd (mapM f l1 w)))).
Proof.
  revert w. induction l1 as [|a l1 IH]; intros w.
  - simpl. unfold ret. simpl. destruct (mapM f l2 w); reflexivity.
  - rewrite <- app_comm_cons, !mapM_cons, IH. reflexivity.
Qed.

(** A relation between each input and its image, with an invariant on
    the effects threaded through. *)
Lemma mapM_rel (I : env -> Prop) (R : A -> B -> Prop) :
  (forall a w, I w -> R a (fst (f a w)) /\ I (snd (f a w))) ->
  forall l w, I w ->
    Forall2 R l (fst (mapM f l w)) /\ I (snd (mapM f l w)).
Proof.
  intros Hf l. induction l as [|a l IH]; intros w Hw.
  - simpl. split; [constructor | exact Hw].
  - rewrite mapM_cons. simpl.
    destruct (Hf a w Hw) as [Ha Hw1].
    destruct (IH _ Hw1) as [Hl Hw2].
    split; [constructor; assumption | assumption].
Qed.

Lemma mapM_length l w : length (fst (mapM f l w)) = length l.
Proof.
  destruct (mapM_rel (fun _ => True) (fun _ _ => True)
              (fun _ _ _ => conj I I) l w I) as [H _].
  symmetry. exact (Forall2_length _ _ _ H).
Qed.
End MapM.

(** A callback that changes neither its argument nor the effects on any
    element of the list leaves list and effects as they are. *)
Lemma mapM_noop {A} (f : A -> M A) (l : list A) w :
  (forall a, a ∈ l -> forall w', f a w' = (a, w')) ->
  mapM f l w = (l, w).
Proof.
  induction l as [|a l IH]; intros H; [reflexivity|].
  rewrite mapM_cons, (H a) by left. simpl.
  rewrite IH by (intros; apply H; right; assumption).
  reflexivity.
Qed.

Lemma state_eta s :
  mkState (files s) (uploadedFiles s) (liveTimers s) (freshTimer s) = s.
Proof. destruct s; reflexivity. Qed.

Lemma leave_enter rs s :
  leave (files s) (uploadedFiles s) (enter rs s) = s.
Proof. destruct s; reflexivity. Qed.

(** ** [submit] *)

(** C4. A call of [simulateFileProcessing] appends exactly one record, with
    the submitted name, phase Uploading, progress 0 and no issue count, and
    in the same step calls [onFileUpload] with the name (the name is
    appended to [App]'s list) and registers the upload ticker under a new
    handle; nothing else of the state changes. *)
Theorem submit_creates_uploading_record (fileName : string) rs s :
  files (step (Submit fileName rs) s) =
    files s ++ [ {| name := fileName; size := sizeLabel (rs 0%nat) (rs 1%nat);
                    status := uploading; progress := 0; issues := None |} ] /\
  uploadedFiles (step (Submit fileName rs) s) = uploadedFiles s ++ [fileName] /\
  liveTimers (step (Submit fileName rs) s) =
    <[freshTimer s := uploadInterval fileName]> (liveTimers s) /\
  freshTimer (step (Submit fileName rs) s) = S (freshTimer s).
Proof. repeat split. Qed.

(** ** [remove] *)

Lemma removeFile_no_match (fileName : string) (prev : list UploadedFile) :
  (forall f, f ∈ prev -> name f <> fileName) ->
  removeFile fileName prev = prev.
Proof.
  unfold removeFile. induction prev as [|f l IH]; intros H; [reflexivity|].
  rewrite filter_cons_True by (apply H; left).
  f_equal. apply IH. intros; apply H; right; assumption.
Qed.

(** C9. [removeFile] keeps exactly the records with another name, in their
    order; with no record of that name the whole state is left as it is;
    removing twice is removing once. Timers and [App]'s list are never
    touched, and there is no failing case. *)
Theorem removeFile_idempotent (fileName : string) s :
  (forall f, f ∈ files (step (Remove fileName) s) <->
             f ∈ files s /\ name f <> fileName) /\
  files (step (Remove fileName) s) `sublist_of` files s /\
  ((forall f, f ∈ files s -> name f <> fileName) ->
     step (Remove fileName) s = s) /\
  step (Remove fileName) (step (Remove fileName) s) = step (Remove fileName) s.
Proof.
  simpl. unfold removeFile. split; [|split; [|split]].
  - intros f. rewrite list_elem_of_filter. tauto.
  - apply sublist_filter.
  - intros H. destruct s as [fs up tm nx]; simpl in *. f_equal.
    apply removeFile_no_match, H.
  - f_equal. rewrite list_filter_filter.
    apply list_filter_iff. tauto.
Qed.

Lemma removeFile_idempotent_witness :
  step (Remove "ghost.fig") (step (Submit "Login.fig" (draws [])) init) =
  step (Submit "Login.fig" (draws [])) init.
Proof.
  destruct (removeFile_idempotent "ghost.fig"
              (step (Submit "Login.fig" (draws [])) init)) as (_ & _ & H & _).
  apply H. intros f Hf. apply list_elem_of_singleton in Hf. subst f. discriminate.
Defined.

(** ** Orphaned tickers *)

Lemma ticker_without_target s id rs t phase :
  liveTimers s !! id = Some t ->
  tickerPhase t = Some phase ->
  (forall f, f ∈ files s -> ~ (name f = timerName t /\ status f = phase)) ->
  step (Fire id rs) s = s.
Proof.
  intros Ht Hp Hnone. simpl. unfold fire. rewrite Ht.
  destruct t as [n|n|n]; simpl in Hp; inversion Hp; subst phase; simpl in Hnone.
  - rewrite (mapM_noop (uploadTick n id)).
    + apply leave_enter.
    + intros a Ha w'. unfold uploadTick.
      destruct (decide _) as [Hm|_]; [destruct (Hnone a Ha Hm) | reflexivity].
  - rewrite (mapM_noop (analysisTick n id)).
    + apply leave_enter.
    + intros a Ha w'. unfold analysisTick.
      destruct (decide _) as [Hm|_]; [destruct (Hnone a Ha Hm) | reflexivity].
Qed.

(** C10. When a ticker (upload or analysis interval) fires and no record has
    both its captured name and the phase it looks for, the step changes
    nothing: not one record, and no timer either. *)
Theorem orphaned_tick_is_noop s id rs t phase :
  liveTimers s !! id = Some t ->
  tickerPhase t = Some phase ->
  (forall f, f ∈ files s -> ~ (name f = timerName t /\ status f = phase)) ->
  step (Fire id rs) s = s.
Proof. apply ticker_without_target. Qed.

Lemma orphaned_tick_is_noop_witness :
  step (Fire 0 (draws [1 # 2]))
       (run [Submit "A.fig" (draws []); Submit "B.fig" (draws []);
             Remove "A.fig"] init) =
  run [Submit "A.fig" (draws []); Submit "B.fig" (draws []);
       Remove "A.fig"] init.
Proof.
  apply (orphaned_tick_is_noop _ 0%nat _ (uploadInterval "A.fig") uploading).
  - reflexivity.
  - reflexivity.
  - intros f Hf [Hn _]. vm_compute in Hf.
    apply list_elem_of_singleton in Hf. subst f. discriminate Hn.
Defined.

(** ** What one callback does to one record *)

Lemma validDraws_head rs : validDraws rs -> validDraw (rs 0%nat).
Proof. intros H. exact (H 0%nat). Qed.

Lemma validDraws_tail rs : validDraws rs -> validDraws (fun i => rs (S i)).
Proof. intros H i. exact (H (S i)). Qed.

Lemma Qle_bool_false x y : Qle_bool x y = false -> (y < x)%Q.
Proof.
  intros H. apply Qnot_le_lt. intros Hle%Qle_bool_iff. congruence.
Qed.

Lemma uploadTick_ticked fileName id f w :
  validDraws (random w) ->
  uploadTicked fileName f (fst (uploadTick fileName id f w)) /\
  validDraws (random (snd (uploadTick fileName id f w))).
Proof.
  intros Hw. unfold uploadTick.
  destruct (decide _) as [[Hn Hs]|Hno].
  - unfold bind, Math_random, clearInterval, setTimeout, register, ret. simpl.
    destruct (Qle_bool 100 (progress f + random w 0%nat * 30)) eqn:E; simpl.
    + split; [|apply validDraws_tail, Hw].
      apply (upload_full _ _ (random w 0%nat)); auto using validDraws_head.
      apply Qle_bool_iff, E.
    + split; [|apply validDraws_tail, Hw].
      apply (upload_advance _ _ (random w 0%nat)); auto using validDraws_head.
      apply Qle_bool_false, E.
  - simpl. split; [apply upload_skip, Hno | exact Hw].
Qed.

Lemma analysisTick_ticked fileName id f w :
  validDraws (random w) ->
  analysisTicked fileName f (fst (analysisTick fileName id f w)) /\
  validDraws (random (snd (analysisTick fileName id f w))).
Proof.
  intros Hw. unfold analysisTick.
  destruct (decide _) as [[Hn Hs]|Hno].
  - unfold bind, Math_random, clearInterval, ret. simpl.
    destruct (Qle_bool 100 (progress f + random w 0%nat * 25)) eqn:E; simpl.
    + split; [|intros i; exact (Hw (S (S i)))].
      apply (analysis_complete _ _ (random w 0%nat) (random w 1%nat));
        auto using validDraws_head.
      * exact (Hw 1%nat).
      * apply Qle_bool_iff, E.
    + split; [|apply validDraws_tail, Hw].
      apply (analysis_advance _ _ (random w 0%nat)); auto using validDraws_head.
      apply Qle_bool_false, E.
  - simpl. split; [apply analysis_skip, Hno | exact Hw].
Qed.

(** The files after a firing, record by record. *)
Lemma fire_upload_files s id rs fileName :
  validDraws rs ->
  liveTimers s !! id = Some (uploadInterval fileName) ->
  Forall2 (uploadTicked fileName) (files s) (files (step (Fire id rs) s)).
Proof.
  intros Hrs Ht. simpl. unfold fire. rewrite Ht.
  destruct (mapM_rel (uploadTick fileName id)
              (fun w => validDraws (random w)) (uploadTicked fileName)
              (uploadTick_ticked fileName id) (files s) (enter rs s) Hrs)
    as [H _].
  destruct (mapM _ _ _) as [fs w]. exact H.
Qed.

Lemma fire_analysis_files s id rs fileName :
  validDraws rs ->
  liveTimers s !! id = Some (analysisInterval fileName) ->
  Forall2 (analysisTicked fileName) (files s) (files (step (Fire id rs) s)).
Proof.
  intros Hrs Ht. simpl. unfold fire. rewrite Ht.
  destruct (mapM_rel (analysisTick fileName id)
              (fun w => validDraws (random w)) (analysisTicked fileName)
              (analysisTick_ticked fileName id) (files s) (enter rs s) Hrs)
    as [H _].
  destruct (mapM _ _ _) as [fs w]. exact H.
Qed.

Lemma fire_timeout_files s id rs fileName :
  liveTimers s !! id = Some (analysisTimeout fileName) ->
  files (step (Fire id rs) s) = map (startAnalysis fileName) (files s).
Proof. intros Ht. simpl. unfold fire. rewrite Ht. reflexivity. Qed.

Lemma fire_dead s id rs :
  liveTimers s !! id = None -> step (Fire id rs) s = s.
Proof. intros Ht. simpl. unfold fire. rewrite Ht. reflexivity. Qed.

(** ** Bounds that hold in every reachable state *)

Lemma Qfloor_draw r (k : Z) :
  validDraw r -> (0 < k)%Z -> (0 <= Qfloor (r * inject_Z k) < k)%Z.
Proof.
  intros [Hlo Hhi] Hk.
  assert (Hk' : (0 < inject_Z k)%Q) by (rewrite Zlt_Qlt in Hk; exact Hk).
  split.
  - change 0%Z with (Qfloor 0). apply Qfloor_resp_le.
    apply Qmult_le_0_compat; [exact Hlo | apply Qlt_le_weak, Hk'].
  - rewrite Zlt_Qlt.
    apply Qle_lt_trans with (r * inject_Z k)%Q; [apply Qfloor_le|].
    rewrite <- (Qmult_1_l (inject_Z k)) at 2.
    apply Qmult_lt_compat_r; assumption.
Qed.

Lemma uploadTicked_wf fileName f f' :
  wfFile f -> uploadTicked fileName f f' -> wfFile f'.
Proof.
  intros [Hlo Hhi Ha Hu Hc He] [Hno | r Hn Hs [Hr0 Hr1] Hlt | r Hn Hs [Hr0 Hr1] Hge].
  - constructor; assumption.
  - constructor; simpl; try assumption; try (intros; congruence); lra.
  - constructor; simpl; try (intros; congruence); try lra. auto.
Qed.

Lemma analysisTicked_wf fileName f f' :
  wfFile f -> analysisTicked fileName f f' -> wfFile f'.
Proof.
  intros [Hlo Hhi Ha Hu Hc He]
    [Hno | r Hn Hs [Hr0 Hr1] Hlt | r r' Hn Hs [Hr0 Hr1] Hr' Hge].
  - constructor; assumption.
  - constructor; simpl; try assumption; try (intros; congruence); lra.
  - constructor; simpl; try (intros; congruence); try lra.
    intros _. split; [reflexivity|].
    exists (Qfloor (r' * 8)). split; [reflexivity|].
    apply (Qfloor_draw r' 8 Hr'). lia.
Qed.

Lemma startAnalysis_wf fileName f : wfFile f -> wfFile (startAnalysis fileName f).
Proof.
  intros Hf. unfold startAnalysis. destruct (decide _); [|exact Hf].
  destruct Hf as [Hlo Hhi Ha Hu Hc He].
  constructor; simpl; try (intros; congruence); lra.
Qed.

Lemma Forall2_Forall_step {A} (R : A -> A -> Prop) (P : A -> Prop) l l' :
  (forall a b, P a -> R a b -> P b) ->
  Forall2 R l l' -> Forall P l -> Forall P l'.
Proof.
  intros HR H. induction H as [|a b l l' Hab _ IH]; intros HP.
  - constructor.
  - inversion HP; subst. constructor; eauto.
Qed.

Lemma step_wf e s :
  validEvent e -> Forall wfFile (files s) -> Forall wfFile (files (step e s)).
Proof.
  intros He Hs. destruct e as [fileName rs | fileName | id rs].
  - simpl. apply Forall_app. split; [exact Hs|].
    constructor; [|constructor].
    constructor; simpl; try (intros; congruence); lra.
  - simpl. unfold removeFile. apply Forall_forall.
    intros f [_ Hf]%list_elem_of_filter.
    rewrite Forall_forall in Hs. apply Hs, Hf.
  - destruct (liveTimers s !! id) as [[n|n|n]|] eqn:Ht.
    + eapply Forall2_Forall_step;
        [apply (uploadTicked_wf n) | apply fire_upload_files; eassumption | exact Hs].
    + rewrite (fire_timeout_files _ _ _ _ Ht). apply Forall_fmap.
      eapply Forall_impl; [exact Hs|]. intros f. apply startAnalysis_wf.
    + eapply Forall2_Forall_step;
        [apply (analysisTicked_wf n) | apply fire_analysis_files; eassumption | exact Hs].
    + rewrite fire_dead by exact Ht. exact Hs.
Qed.

Lemma reachable_wf s : reachable s -> Forall wfFile (files s).
Proof.
  induction 1 as [|e s _ IH He]; [constructor | apply step_wf; assumption].
Qed.

(** ** Streams of draws *)

Lemma validDraws_draws l : Forall validDraw l -> validDraws (draws l).
Proof.
  intros Hl. unfold validDraws, draws.
  induction Hl as [|r l Hr _ IH]; intros [|i]; simpl.
  - split; lra.
  - split; lra.
  - exact Hr.
  - apply IH.
Qed.

(** ** The size label *)

Lemma Qfloor_lower (k : Z) x : (inject_Z k <= x)%Q -> (k <= Qfloor x)%Z.
Proof. intros H. rewrite <- (Qfloor_Z k). apply Qfloor_resp_le, H. Qed.

Lemma Qfloor_upper (k : Z) x : (x < inject_Z k)%Q -> (Qfloor x < k)%Z.
Proof.
  intros H. rewrite Zlt_Qlt.
  apply Qle_lt_trans with x; [apply Qfloor_le | exact H].
Qed.




Lemma uploadTick_label fileName id f w :
  label (fst (uploadTick fileName id f w)) = label f.
Proof.
  unfold uploadTick. destruct (decide _); [|reflexivity].
  unfold bind, Math_random. simpl.
  destruct (Qle_bool _ _); reflexivity.
Qed.

Lemma analysisTick_label fileName id f w :
  label (fst (analysisTick fileName id f w)) = label f.
Proof.
  unfold analysisTick. destruct (decide _); [|reflexivity].
  unfold bind, Math_random. simpl.
  destruct (Qle_bool _ _); reflexivity.
Qed.

Lemma startAnalysis_label fileName f : label (startAnalysis fileName f) = label f.
Proof. unfold startAnalysis. destruct (decide _); reflexivity. Qed.

Lemma mapM_label (f : UploadedFile -> M UploadedFile) l w :
  (forall a w', label (fst (f a w')) = label a) ->
  map label (fst (mapM f l w)) = map label l.
Proof.
  intros Hf. revert w. induction l as [|a l IH]; intros w; [reflexivity|].
  rewrite mapM_cons. simpl. rewrite Hf, IH. reflexivity.
Qed.

Lemma fire_labels s id rs :
  map label (files (step (Fire id rs) s)) = map label (files s).
Proof.
  simpl. unfold fire. destruct (liveTimers s !! id) as [[n|n|n]|]; try reflexivity.
  - pose proof (mapM_label (uploadTick n id) (files s) (enter rs s)
                  (uploadTick_label n id)) as H.
    destruct (mapM _ _ _); exact H.
  - simpl. rewrite map_map. apply map_ext. apply startAnalysis_label.
  - pose proof (mapM_label (analysisTick n id) (files s) (enter rs s)
                  (analysisTick_label n id)) as H.
    destruct (mapM _ _ _); exact H.
Qed.



(** ** Scenario runs *)

Lemma run_app tr1 tr2 s : run (tr1 ++ tr2) s = run tr2 (run tr1 s).
Proof. revert s. induction tr1 as [|e tr1 IH]; intros s; simpl; auto. Qed.

Lemma run_reachable tr s :
  reachable s -> Forall validEvent tr -> reachable (run tr s).
Proof.
  intros Hs Htr. revert s Hs.
  induction Htr as [|e tr He _ IH]; intros s Hs; simpl; [exact Hs|].
  apply IH, reachable_step; assumption.
Qed.

Ltac valid_trace :=
  repeat (apply Forall_cons; split); try apply Forall_nil; simpl;
  try exact I; apply validDraws_draws; repeat constructor; simpl; lra.

Lemma resubmitted_valid : Forall validEvent resubmitted.
Proof. unfold resubmitted, untilAnalysed, uploadRun. simpl. valid_trace. Qed.

Lemma reanalysed_valid : Forall validEvent reanalysed.
Proof.
  unfold reanalysed. apply Forall_app. split; [apply resubmitted_valid|].
  simpl. valid_trace.
Qed.

(** ** Phases *)

(** C1. The claim fails on the code: a record that is Completed is moved
    back to Analyzing when the timeout of a later submission with the same
    name fires, because the timeout's update tests the name only. Here the
    first "A.fig" is Completed with 4 issues, "A.fig" is submitted again,
    and the firing of timeout 4 resets the first record. *)
Theorem resubmission_moves_completed_back :
  reachable (run resubmitted init) /\
  liveTimers (run resubmitted init) !! 4%nat = Some (analysisTimeout "A.fig") /\
  files (run resubmitted init) !! 0%nat =
    Some {| name := "A.fig"; size := "1.0MB"; status := completed;
            progress := 100; issues := Some 4%Z |} /\
  files (step (Fire 4 (draws [])) (run resubmitted init)) !! 0%nat =
    Some {| name := "A.fig"; size := "1.0MB"; status := analyzing;
            progress := 0; issues := Some 4%Z |}.
Proof.
  split; [apply run_reachable; [apply reachable_init | apply resubmitted_valid]|].
  vm_compute. repeat split.
Qed.

(** ** The issue count *)

(** C5. The claim fails on the code, by the defect of C1: after the reset
    the first record is Analyzing and still carries its issue count 4, and
    when the second submission's analysis ticker completes it again the
    count is drawn anew, here 7. *)
Theorem resubmission_reassigns_issues :
  reachable (run reanalysed init) /\
  files (run resubmitted init) !! 0%nat =
    Some {| name := "A.fig"; size := "1.0MB"; status := completed;
            progress := 100; issues := Some 4%Z |} /\
  files (run (resubmitted ++ [Fire 4 (draws [])]) init) !! 0%nat =
    Some {| name := "A.fig"; size := "1.0MB"; status := analyzing;
            progress := 0; issues := Some 4%Z |} /\
  files (run reanalysed init) !! 0%nat =
    Some {| name := "A.fig"; size := "1.0MB"; status := completed;
            progress := 100; issues := Some 7%Z |}.
Proof.
  split; [apply run_reachable; [apply reachable_init | apply reanalysed_valid]|].
  vm_compute. repeat split.
Qed.

(** ** Progress within a phase *)

Lemma resumedAnalysis_valid : Forall validEvent resumedAnalysis.
Proof.
  unfold resumedAnalysis, resubmittedMidAnalysis, analysisStarted.
  simpl. valid_trace.
Qed.

(** C7. The claim fails on the code, by the defect of C1: the update of a
    timeout tests the name only, so it resets every record of that name to
    progress 0, also one that is Analyzing. Here the first "A.fig" is
    Analyzing at 21.875 when the timeout (4) of a second submission of
    "A.fig" fires: the record stays Analyzing and its progress falls to 0,
    and the next firing of its own analysis ticker (2) stores 3.125, below
    the 21.875 observed two ticks earlier in the same phase. *)
Theorem resubmission_lowers_analysis_progress :
  reachable (run resumedAnalysis init) /\
  liveTimers (run resubmittedMidAnalysis init) !! 2%nat =
    Some (analysisInterval "A.fig") /\
  liveTimers (run resubmittedMidAnalysis init) !! 4%nat =
    Some (analysisTimeout "A.fig") /\
  files (run resubmittedMidAnalysis init) !! 0%nat =
    Some {| name := "A.fig"; size := "1.0MB"; status := analyzing;
            progress := 0 + (7 # 8) * 25; issues := None |} /\
  files (step (Fire 4 (draws [])) (run resubmittedMidAnalysis init)) !! 0%nat =
    Some {| name := "A.fig"; size := "1.0MB"; status := analyzing;
            progress := 0; issues := None |} /\
  files (run resumedAnalysis init) !! 0%nat =
    Some {| name := "A.fig"; size := "1.0MB"; status := analyzing;
            progress := 0 + (1 # 8) * 25; issues := None |} /\
  (0 + (1 # 8) * 25 < 0 + (7 # 8) * 25)%Q.
Proof.
  split; [apply run_reachable; [apply reachable_init | apply resumedAnalysis_valid]|].
  vm_compute. repeat split.
Qed.

(** ** Independence of records *)

(** Counterexample to C2 as stated. Two records of one name: the ticker
    registered by the first submission (handle 0) advances the record of
    the second. *)
Lemma same_name_records_share_tickers :
  liveTimers (run [Submit "A.fig" (draws []); Submit "A.fig" (draws [])] init)
    !! 0%nat = Some (uploadInterval "A.fig") /\
  files (run [Submit "A.fig" (draws []); Submit "A.fig" (draws [])] init)
    !! 1%nat =
    Some {| name := "A.fig"; size := "1.0MB"; status := uploading;
            progress := 0; issues := None |} /\
  files (run [Submit "A.fig" (draws []); Submit "A.fig" (draws []);
              Fire 0 (draws [1 # 2; 1 # 2])] init) !! 1%nat =
    Some {| name := "A.fig"; size := "1.0MB"; status := uploading;
            progress := 0 + (1 # 2) * 30; issues := None |}.
Proof. vm_compute. repeat split. Qed.

(** Counterexample to C3 as stated. The ticker of a removed record
    (handle 0) keeps firing; once the name is submitted again it advances
    the new record. *)
Lemma removed_ticker_updates_resubmission :
  liveTimers (run [Submit "A.fig" (draws []); Remove "A.fig";
                   Submit "A.fig" (draws [])] init) !! 0%nat =
    Some (uploadInterval "A.fig") /\
  files (run [Submit "A.fig" (draws []); Remove "A.fig";
              Submit "A.fig" (draws [])] init) =
    [ {| name := "A.fig"; size := "1.0MB"; status := uploading;
         progress := 0; issues := None |} ] /\
  files (run [Submit "A.fig" (draws []); Remove "A.fig";
              Submit "A.fig" (draws []); Fire 0 (draws [1 # 2])] init) =
    [ {| name := "A.fig"; size := "1.0MB"; status := uploading;
         progress := 0 + (1 # 2) * 30; issues := None |} ].
Proof. vm_compute. repeat split. Qed.


(** ** What a callback does to the timer table *)

Lemma uploadTick_timers fileName id f w :
  (timers (snd (uploadTick fileName id f w)) = timers w /\
   nextTimer (snd (uploadTick fileName id f w)) = nextTimer w) \/
  (timers (snd (uploadTick fileName id f w)) =
     <[nextTimer w := analysisTimeout fileName]> (delete id (timers w)) /\
   nextTimer (snd (uploadTick fileName id f w)) = S (nextTimer w)).
Proof.
  unfold uploadTick. destruct (decide _); [|left; split; reflexivity].
  unfold bind, Math_random, clearInterval, setTimeout, register, ret. simpl.
  destruct (Qle_bool _ _); simpl; [right | left]; split; reflexivity.
Qed.

Lemma analysisTick_timers fileName id f w :
  (timers (snd (analysisTick fileName id f w)) = timers w \/
   timers (snd (analysisTick fileName id f w)) = delete id (timers w)) /\
  nextTimer (snd (analysisTick fileName id f w)) = nextTimer w.
Proof.
  unfold analysisTick. destruct (decide _); [|split; [left|]; reflexivity].
  unfold bind, Math_random, clearInterval, ret. simpl.
  destruct (Qle_bool _ _); simpl; split; auto.
Qed.

Lemma inherits_refl n tm : inherits n tm tm.
Proof. intros id t H. left. exact H. Qed.

Lemma inherits_delete n old tm id : inherits n old tm -> inherits n old (delete id tm).
Proof. intros H id' t [_ Ht]%lookup_delete_Some. apply H, Ht. Qed.

Lemma inherits_insert n old tm id t :
  timerName t = n -> inherits n old tm -> inherits n old (<[id := t]> tm).
Proof.
  intros Hn H id' t' [[_ <-] | [_ Ht]]%lookup_insert_Some;
    [right; exact Hn | apply H, Ht].
Qed.

Lemma fire_inherits s id rs t :
  liveTimers s !! id = Some t ->
  inherits (timerName t) (liveTimers s) (liveTimers (step (Fire id rs) s)).
Proof.
  intros Ht. simpl. unfold fire. rewrite Ht. destruct t as [n|n|n]; simpl.
  - destruct (mapM_rel (uploadTick n id)
                (fun w => inherits n (liveTimers s) (timers w))
                (fun _ _ => True)) with (l := files s) (w := enter rs s)
      as [_ H].
    + intros a w Hw. split; [exact I|].
      destruct (uploadTick_timers n id a w) as [[-> _] | [-> _]];
        [exact Hw | apply inherits_insert, inherits_delete, Hw; reflexivity].
    + apply inherits_refl.
    + destruct (mapM _ _ _); exact H.
  - apply inherits_insert, inherits_delete, inherits_refl. reflexivity.
  - destruct (mapM_rel (analysisTick n id)
                (fun w => inherits n (liveTimers s) (timers w))
                (fun _ _ => True)) with (l := files s) (w := enter rs s)
      as [_ H].
    + intros a w Hw. split; [exact I|].
      destruct (analysisTick_timers n id a w) as [[-> | ->] _];
        [exact Hw | apply inherits_delete, Hw].
    + apply inherits_refl.
    + destruct (mapM _ _ _); exact H.
Qed.

(** A record of another name is handed back as it is. *)
Lemma uploadTick_other fileName id f w :
  name f <> fileName -> uploadTick fileName id f w = (f, w).
Proof.
  intros Hn. unfold uploadTick.
  destruct (decide _) as [[Hm _]|_]; [destruct (Hn Hm) | reflexivity].
Qed.

Lemma analysisTick_other fileName id f w :
  name f <> fileName -> analysisTick fileName id f w = (f, w).
Proof.
  intros Hn. unfold analysisTick.
  destruct (decide _) as [[Hm _]|_]; [destruct (Hn Hm) | reflexivity].
Qed.

Lemma startAnalysis_other fileName f :
  name f <> fileName -> startAnalysis fileName f = f.
Proof.
  intros Hn. unfold startAnalysis.
  destruct (decide _) as [Hm|_]; [destruct (Hn Hm) | reflexivity].
Qed.

Lemma fire_other_name s id rs t i f :
  liveTimers s !! id = Some t ->
  files s !! i = Some f -> name f <> timerName t ->
  files (step (Fire id rs) s) !! i = Some f.
Proof.
  intros Ht Hf Hn. simpl. unfold fire. rewrite Ht.
  destruct t as [n|n|n]; simpl in *.
  - destruct (mapM_rel (uploadTick n id) (fun _ => True)
                (fun a b => name a <> n -> b = a)) with (l := files s)
      (w := enter rs s) as [H _]; [|exact I|].
    + intros a w _. split; [|exact I].
      intros Ha. rewrite uploadTick_other by exact Ha. reflexivity.
    + destruct (mapM _ _ _) as [fs w]. simpl in *.
      destruct (Forall2_lookup_l _ _ _ _ _ H Hf) as (b & Hb & Hab).
      rewrite Hb, (Hab Hn). reflexivity.
  - rewrite list_lookup_fmap, Hf. simpl.
    rewrite startAnalysis_other by exact Hn. reflexivity.
  - destruct (mapM_rel (analysisTick n id) (fun _ => True)
                (fun a b => name a <> n -> b = a)) with (l := files s)
      (w := enter rs s) as [H _]; [|exact I|].
    + intros a w _. split; [|exact I].
      intros Ha. rewrite analysisTick_other by exact Ha. reflexivity.
    + destruct (mapM _ _ _) as [fs w]. simpl in *.
      destruct (Forall2_lookup_l _ _ _ _ _ H Hf) as (b & Hb & Hab).
      rewrite Hb, (Hab Hn). reflexivity.
Qed.

Lemma fire_other_source s id rs t f' :
  liveTimers s !! id = Some t ->
  f' ∈ files (step (Fire id rs) s) -> name f' <> timerName t ->
  f' ∈ files s.
Proof.
  intros Ht [i Hi]%list_elem_of_lookup Hn.
  pose proof (fire_labels s id rs) as Hl.
  apply (f_equal (fun l => l !! i)) in Hl.
  change (map label) with (fmap (M := list) label) in Hl.
  rewrite !list_lookup_fmap, Hi in Hl. simpl in Hl.
  destruct (files s !! i) as [f|] eqn:Hf; [|discriminate Hl].
  simpl in Hl. injection Hl as Hname _.
  assert (Hnf : name f <> timerName t) by congruence.
  pose proof (fire_other_name s id rs t i f Ht Hf Hnf) as Hi'.
  rewrite Hi in Hi'. injection Hi' as ->.
  eapply list_elem_of_lookup_2, Hf.
Qed.

(** C2 (amended). Records are told apart by name only. A firing of a timer
    leaves every record whose name differs from the name the timer captured
    exactly as it is, adds and drops no record, and registers only timers
    of that same name; so the tickers and transitions that descend from a
    submission of [n] change records named [n] and no others. *)
Theorem timers_touch_only_their_name s id rs t :
  liveTimers s !! id = Some t ->
  (forall i f, files s !! i = Some f -> name f <> timerName t ->
     files (step (Fire id rs) s) !! i = Some f) /\
  map name (files (step (Fire id rs) s)) = map name (files s) /\
  (forall id' t', liveTimers (step (Fire id rs) s) !! id' = Some t' ->
     liveTimers s !! id' = Some t' \/ timerName t' = timerName t).
Proof.
  intros Ht. split; [|split].
  - intros i f. apply fire_other_name, Ht.
  - pose proof (fire_labels s id rs) as H.
    apply (f_equal (map fst)) in H. rewrite !map_map in H. exact H.
  - apply fire_inherits, Ht.
Qed.

Lemma timers_touch_only_their_name_witness :
  files (step (Fire 0 (draws [1 # 2]))
          (run [Submit "A.fig" (draws []); Submit "B.fig" (draws [])] init))
    !! 1%nat =
  Some {| name := "B.fig"; size := "1.0MB"; status := uploading;
          progress := 0; issues := None |}.
Proof.
  destruct (timers_touch_only_their_name
              (run [Submit "A.fig" (draws []); Submit "B.fig" (draws [])] init)
              0%nat (draws [1 # 2]) (uploadInterval "A.fig")) as (H & _).
  - reflexivity.
  - apply H; [reflexivity | discriminate].
Defined.

(** ** Removal *)

Lemma fire_label_source s id rs f' :
  f' ∈ files (step (Fire id rs) s) ->
  exists f, f ∈ files s /\ label f = label f'.
Proof.
  intros Hf'. apply (list_elem_of_fmap_2 label) in Hf'.
  change (label <$> files (step (Fire id rs) s))
    with (map label (files (step (Fire id rs) s))) in Hf'.
  rewrite fire_labels in Hf'.
  apply list_elem_of_fmap_1 in Hf' as (f & Hl & Hf). eauto.
Qed.

Lemma step_absent n e s :
  ~ isSubmitOf n e -> absent n s -> absent n (step e s).
Proof.
  intros He Hs. destruct e as [m rs | m | id rs]; intros f Hf.
  - simpl in Hf. apply elem_of_app in Hf as [Hf | Hf]; [apply Hs, Hf|].
    apply list_elem_of_singleton in Hf. subst f. exact He.
  - simpl in Hf. apply list_elem_of_filter in Hf as [_ Hf]. apply Hs, Hf.
  - apply fire_label_source in Hf as (f0 & Hf0 & Hl).
    injection Hl as Hn _. rewrite <- Hn. apply Hs, Hf0.
Qed.

Lemma run_absent n tr s :
  Forall (fun e => ~ isSubmitOf n e) tr -> absent n s -> absent n (run tr s).
Proof.
  intros Htr. revert s. induction Htr as [|e tr He _ IH]; intros s Hs; simpl;
    [exact Hs | apply IH, step_absent; assumption].
Qed.

Lemma fire_absent n s id rs t :
  absent n s -> liveTimers s !! id = Some t -> timerName t = n ->
  files (step (Fire id rs) s) = files s.
Proof.
  intros Hs Ht Hn. destruct (tickerPhase t) as [phase|] eqn:Hp.
  - rewrite (ticker_without_target s id rs t phase Ht Hp); [reflexivity|].
    intros f Hf [Hm _]. apply (Hs f Hf). congruence.
  - destruct t as [m|m|m]; try discriminate Hp. simpl in Hn. subst m.
    rewrite (fire_timeout_files _ _ _ _ Ht).
    unfold absent in Hs. induction (files s) as [|f l IH]; [reflexivity|].
    simpl. rewrite startAnalysis_other by (apply Hs; left).
    f_equal. apply IH. intros; apply Hs; right; assumption.
Qed.

(** C3 (amended). After [remove(n)], as long as [n] is not submitted again:
    no record named [n] is in the mapping, and every firing of a timer that
    captured the name [n] (the removed record's timers are not cleared and
    keep firing) leaves the mapping as it is. The removal itself keeps
    every record of another name and every timer. *)
Theorem removed_name_gets_no_update s fileName tr :
  Forall (fun e => ~ isSubmitOf fileName e) tr ->
  (forall f, f ∈ files (run tr (step (Remove fileName) s)) ->
     name f <> fileName) /\
  (forall id rs t,
     liveTimers (run tr (step (Remove fileName) s)) !! id = Some t ->
     timerName t = fileName ->
     files (step (Fire id rs) (run tr (step (Remove fileName) s))) =
       files (run tr (step (Remove fileName) s))) /\
  (forall f, f ∈ files s -> name f <> fileName ->
     f ∈ files (step (Remove fileName) s)) /\
  liveTimers (step (Remove fileName) s) = liveTimers s.
Proof.
  intros Htr.
  assert (Habs : absent fileName (run tr (step (Remove fileName) s))).
  { apply run_absent; [exact Htr|].
    intros f [Hf _]%list_elem_of_filter. exact Hf. }
  split; [exact Habs|]. split; [|split].
  - intros id rs t Ht Hn. eapply fire_absent; eassumption.
  - intros f Hf Hn. simpl. apply list_elem_of_filter. split; assumption.
  - reflexivity.
Qed.

Lemma removed_name_gets_no_update_witness :
  files (step (Fire 0 (draws [1 # 2]))
          (run [Fire 1 (draws [1 # 2]); Fire 0 (draws [1 # 2])]
             (step (Remove "A.fig")
                (run [Submit "A.fig" (draws []); Submit "B.fig" (draws [])]
                     init)))) =
  files (run [Fire 1 (draws [1 # 2]); Fire 0 (draws [1 # 2])]
           (step (Remove "A.fig")
              (run [Submit "A.fig" (draws []); Submit "B.fig" (draws [])]
                   init))).
Proof.
  destruct (removed_name_gets_no_update
              (run [Submit "A.fig" (draws []); Submit "B.fig" (draws [])] init)
              "A.fig" [Fire 1 (draws [1 # 2]); Fire 0 (draws [1 # 2])])
    as (_ & H & _).
  - repeat constructor; simpl; auto.
  - apply (H 0%nat (draws [1 # 2]) (uploadInterval "A.fig")); reflexivity.
Defined.

(** ** Runs in which no name is submitted twice *)

Lemma mapM_single {A} (f : A -> M A) l1 a l2 w :
  (forall x, x ∈ l1 -> forall w', f x w' = (x, w')) ->
  (forall x, x ∈ l2 -> forall w', f x w' = (x, w')) ->
  mapM f (l1 ++ a :: l2) w = (l1 ++ fst (f a w) :: l2, snd (f a w)).
Proof.
  intros H1 H2.
  rewrite mapM_app, (mapM_noop f l1 w H1). cbn [fst snd].
  rewrite mapM_cons, (mapM_noop f l2 _ H2). reflexivity.
Qed.

Lemma NoDup_names_split l1 (f : UploadedFile) l2 :
  NoDup (map name (l1 ++ f :: l2)) ->
  (forall x, x ∈ l1 -> name x <> name f) /\
  (forall x, x ∈ l2 -> name x <> name f).
Proof.
  rewrite map_app. simpl. intros (_ & H1 & H2)%NoDup_app.
  apply NoDup_cons in H2 as [H2 _]. split.
  - intros x Hx E. apply (H1 (name x)).
    + apply (list_elem_of_fmap_2 name), Hx.
    + rewrite E. left.
  - intros x Hx E. apply H2. rewrite <- E.
    apply (list_elem_of_fmap_2 name), Hx.
Qed.

Lemma uploadTick_cases fileName id f w :
  (~ (name f = fileName /\ status f = uploading) /\
   uploadTick fileName id f w = (f, w)) \/
  (name f = fileName /\ status f = uploading /\
   (progress f + random w 0%nat * 30 < 100)%Q /\
   fst (uploadTick fileName id f w) =
     {| name := name f; size := size f; status := status f;
        progress := progress f + random w 0%nat * 30; issues := issues f |} /\
   timers (snd (uploadTick fileName id f w)) = timers w /\
   nextTimer (snd (uploadTick fileName id f w)) = nextTimer w) \/
  (name f = fileName /\ status f = uploading /\
   (100 <= progress f + random w 0%nat * 30)%Q /\
   fst (uploadTick fileName id f w) =
     {| name := name f; size := size f; status := uploading;
        progress := 100; issues := issues f |} /\
   timers (snd (uploadTick fileName id f w)) =
     <[nextTimer w := analysisTimeout fileName]> (delete id (timers w)) /\
   nextTimer (snd (uploadTick fileName id f w)) = S (nextTimer w)).
Proof.
  unfold uploadTick. destruct (decide _) as [[Hn Hs]|Hno].
  - right.
    unfold bind, Math_random, clearInterval, setTimeout, register, ret. simpl.
    destruct (Qle_bool _ _) eqn:E; simpl; [right | left];
      repeat split; auto.
    + apply Qle_bool_iff, E.
    + apply Qle_bool_false, E.
  - left. split; [exact Hno | reflexivity].
Qed.

(** With one record per name the upload ticker works on one record. *)
Lemma fire_upload_at s id rs fileName l1 f l2 :
  NoDup (map name (files s)) ->
  liveTimers s !! id = Some (uploadInterval fileName) ->
  files s = l1 ++ f :: l2 -> name f = fileName ->
  step (Fire id rs) s =
    leave (l1 ++ fst (uploadTick fileName id f (enter rs s)) :: l2)
          (uploadedFiles s)
          (snd (uploadTick fileName id f (enter rs s))).
Proof.
  intros Hnd Ht Hfs Hn. simpl. unfold fire. rewrite Ht, Hfs.
  rewrite Hfs in Hnd. apply NoDup_names_split in Hnd as [H1 H2].
  rewrite mapM_single; [reflexivity | |].
  - intros x Hx w'. apply uploadTick_other. rewrite <- Hn. apply H1, Hx.
  - intros x Hx w'. apply uploadTick_other. rewrite <- Hn. apply H2, Hx.
Qed.

Lemma fire_uploadedFiles s id rs :
  uploadedFiles (step (Fire id rs) s) = uploadedFiles s.
Proof.
  simpl. unfold fire. destruct (liveTimers s !! id) as [[n|n|n]|]; try reflexivity.
  - destruct (mapM _ _ _); reflexivity.
  - destruct (mapM _ _ _); reflexivity.
Qed.

Lemma fire_names s id rs :
  map name (files (step (Fire id rs) s)) = map name (files s).
Proof.
  pose proof (fire_labels s id rs) as H.
  apply (f_equal (map fst)) in H. rewrite !map_map in H. exact H.
Qed.

(** The analysis ticker registers nothing, can only clear itself, and
    leaves Uploading records alone. *)
Lemma analysisTick_uploading fileName id f w :
  status (fst (analysisTick fileName id f w)) = uploading ->
  fst (analysisTick fileName id f w) = f.
Proof.
  unfold analysisTick. destruct (decide _) as [[_ Hs]|_]; [|reflexivity].
  unfold bind, Math_random, clearInterval, ret. simpl.
  destruct (Qle_bool _ _); simpl; congruence.
Qed.

Lemma fire_analysis_effect s id rs fileName :
  liveTimers s !! id = Some (analysisInterval fileName) ->
  (forall f', f' ∈ files (step (Fire id rs) s) -> status f' = uploading ->
     f' ∈ files s) /\
  (liveTimers (step (Fire id rs) s) = liveTimers s \/
   liveTimers (step (Fire id rs) s) = delete id (liveTimers s)) /\
  freshTimer (step (Fire id rs) s) = freshTimer s.
Proof.
  intros Ht. simpl. unfold fire. rewrite Ht.
  destruct (mapM_rel (analysisTick fileName id)
              (fun w => (timers w = liveTimers s \/
                         timers w = delete id (liveTimers s)) /\
                        nextTimer w = freshTimer s)
              (fun a b => status b = uploading -> b = a))
    with (l := files s) (w := enter rs s) as [HR [Htm Hnx]].
  - intros a w [Htm Hnx]. split; [apply analysisTick_uploading|].
    destruct (analysisTick_timers fileName id a w) as [Hc ->].
    split; [|exact Hnx].
    destruct Hc as [-> | ->]; [exact Htm|].
    destruct Htm as [-> | ->]; [right; reflexivity|].
    right. apply delete_delete_eq.
  - split; [left|]; reflexivity.
  - destruct (mapM _ _ _) as [fs w]. simpl in *.
    split; [|split; assumption].
    intros f' Hf' Hs. apply list_elem_of_lookup in Hf' as [i Hi].
    destruct (Forall2_lookup_r _ _ _ _ _ HR Hi) as (f & Hf & Hff).
    rewrite (Hff Hs). eapply list_elem_of_lookup_2, Hf.
Qed.

Lemma timersOk_replace U tm fresh id t0 t :
  timersOk U tm fresh -> tm !! id = Some t0 -> timerName t = timerName t0 ->
  timersOk U (<[fresh := t]> (delete id tm)) (S fresh).
Proof.
  intros [H1 H2] Hid Hn. split.
  - intros i x [[<- <-] | [_ [_ Hx]%lookup_delete_Some]]%lookup_insert_Some.
    + rewrite Hn. split; [apply (H1 _ _ Hid) | lia].
    + destruct (H1 _ _ Hx). split; [assumption | lia].
  - intros i i' x x'
      [[<- <-] | [Hi [Hd Hx]%lookup_delete_Some]]%lookup_insert_Some
      [[<- <-] | [Hi' [Hd' Hx']%lookup_delete_Some]]%lookup_insert_Some E.
    + reflexivity.
    + destruct Hd'. apply (H2 _ _ _ _ Hid Hx'). congruence.
    + destruct Hd. apply (H2 _ _ _ _ Hid Hx). congruence.
    + apply (H2 _ _ _ _ Hx Hx' E).
Qed.

Lemma timersOk_delete U tm fresh id :
  timersOk U tm fresh -> timersOk U (delete id tm) fresh.
Proof.
  intros [H1 H2]. split.
  - intros i x [_ Hx]%lookup_delete_Some. apply (H1 _ _ Hx).
  - intros i i' x x' [_ Hx]%lookup_delete_Some [_ Hx']%lookup_delete_Some.
    apply (H2 _ _ _ _ Hx Hx').
Qed.

Lemma timersOk_submit U tm fresh m t :
  timersOk U tm fresh -> m ∉ U -> timerName t = m ->
  timersOk (U ++ [m]) (<[fresh := t]> tm) (S fresh).
Proof.
  intros [H1 H2] Hm Hn. split.
  - intros i x [[<- <-] | [_ Hx]]%lookup_insert_Some.
    + split; [|lia]. rewrite Hn. apply elem_of_app. right. left.
    + destruct (H1 _ _ Hx). split; [apply elem_of_app; left; assumption | lia].
  - intros i i' x x' [[<- <-] | [Hi Hx]]%lookup_insert_Some
      [[<- <-] | [Hi' Hx']]%lookup_insert_Some E.
    + reflexivity.
    + destruct Hm. rewrite <- Hn, E. apply (H1 _ _ Hx').
    + destruct Hm. rewrite <- Hn, <- E. apply (H1 _ _ Hx).
    + apply (H2 _ _ _ _ Hx Hx' E).
Qed.

Lemma NoDup_names_filter (P : UploadedFile -> Prop)
    `{forall f, Decision (P f)} l :
  NoDup (map name l) -> NoDup (map name (filter P l)).
Proof.
  induction l as [|f l IH]; simpl; [auto|].
  intros [Hf Hl]%NoDup_cons. rewrite filter_cons.
  destruct (decide (P f)); [|apply IH, Hl].
  simpl. apply NoDup_cons. split; [|apply IH, Hl].
  intros (g & Hg & Hin)%list_elem_of_fmap_1.
  apply list_elem_of_filter in Hin as [_ Hin].
  apply Hf. rewrite Hg. apply (list_elem_of_fmap_2 name), Hin.
Qed.

Lemma inv_submit fileName rs s :
  NoDup (uploadedFiles s ++ [fileName]) ->
  uniqueInv s -> uniqueInv (step (Submit fileName rs) s).
Proof.
  intros Hnd [Hf Hn Ht Hfull].
  assert (Hm : fileName ∉ uploadedFiles s).
  { apply NoDup_app in Hnd as (_ & Hd & _). intros Hin.
    apply (Hd _ Hin). left. }
  constructor; simpl.
  - intros f [Hin | ->%list_elem_of_singleton]%elem_of_app;
      apply elem_of_app; [left; apply Hf, Hin | right; left].
  - rewrite map_app. simpl. apply NoDup_app. split; [exact Hn|]. split.
    + intros x (g & -> & Hg)%list_elem_of_fmap_1 Hx%list_elem_of_singleton.
      apply Hm. rewrite <- Hx. apply Hf, Hg.
    + apply NoDup_singleton.
  - apply timersOk_submit; [exact Ht | exact Hm | reflexivity].
  - intros id n f [[_ Heq] | [_ Hid]]%lookup_insert_Some; [discriminate Heq|].
    intros [Hin | ->%list_elem_of_singleton]%elem_of_app.
    + apply (Hfull _ _ _ Hid Hin).
    + simpl. intros <-. destruct Hm. apply (proj1 Ht _ _ Hid).
Qed.

Lemma inv_remove fileName s :
  uniqueInv s -> uniqueInv (step (Remove fileName) s).
Proof.
  intros [Hf Hn Ht Hfull]. constructor; simpl; unfold removeFile.
  - intros f [_ Hin]%list_elem_of_filter. apply Hf, Hin.
  - apply NoDup_names_filter, Hn.
  - exact Ht.
  - intros id n f Hid [_ Hin]%list_elem_of_filter. apply (Hfull _ _ _ Hid Hin).
Qed.

Lemma fire_inv_files s id rs :
  uniqueInv s ->
  (forall f, f ∈ files (step (Fire id rs) s) ->
     name f ∈ uploadedFiles (step (Fire id rs) s)) /\
  NoDup (map name (files (step (Fire id rs) s))).
Proof.
  intros [Hf Hn _ _]. split.
  - intros f' (f & Hin & Hl)%fire_label_source.
    rewrite fire_uploadedFiles. injection Hl as <- _. apply Hf, Hin.
  - rewrite fire_names. exact Hn.
Qed.

Lemma fire_timeout_state s id rs fileName :
  liveTimers s !! id = Some (analysisTimeout fileName) ->
  step (Fire id rs) s =
    mkState (map (startAnalysis fileName) (files s)) (uploadedFiles s)
      (<[freshTimer s := analysisInterval fileName]> (delete id (liveTimers s)))
      (S (freshTimer s)).
Proof. intros Ht. simpl. unfold fire. rewrite Ht. reflexivity. Qed.

Lemma inv_fire_timeout s id rs fileName :
  liveTimers s !! id = Some (analysisTimeout fileName) ->
  uniqueInv s -> uniqueInv (step (Fire id rs) s).
Proof.
  intros Ht Hinv. destruct (fire_inv_files s id rs Hinv) as [Hf' Hn'].
  destruct Hinv as [Hf Hn Htm Hfull].
  constructor; [exact Hf' | exact Hn' | |];
    rewrite (fire_timeout_state _ _ _ _ Ht); simpl.
  - eapply timersOk_replace; [exact Htm | exact Ht | reflexivity].
  - intros id' n' f' [[_ Heq] | [_ [Hne Hid']%lookup_delete_Some]]%lookup_insert_Some;
      [discriminate Heq|].
    intros (f0 & -> & Hin)%list_elem_of_fmap_1 Hname.
    assert (Hn0 : name f0 <> fileName).
    { intros E. apply Hne. apply (proj2 Htm _ _ _ _ Ht Hid'). simpl.
      pose proof (startAnalysis_label fileName f0) as Hl.
      injection Hl as Hl _. congruence. }
    rewrite startAnalysis_other in * by exact Hn0.
    apply (Hfull _ _ _ Hid' Hin Hname).
Qed.

Lemma inv_fire_analysis s id rs fileName :
  liveTimers s !! id = Some (analysisInterval fileName) ->
  uniqueInv s -> uniqueInv (step (Fire id rs) s).
Proof.
  intros Ht Hinv. destruct (fire_inv_files s id rs Hinv) as [Hf' Hn'].
  destruct Hinv as [Hf Hn Htm Hfull].
  destruct (fire_analysis_effect s id rs fileName Ht) as (Hup & Hc & Hfr).
  constructor; [exact Hf' | exact Hn' | |].
  - rewrite fire_uploadedFiles, Hfr.
    destruct Hc as [-> | ->]; [exact Htm | apply timersOk_delete, Htm].
  - intros id' n' f' Hid' Hin Hname.
    assert (Hold : liveTimers s !! id' = Some (analysisTimeout n')).
    { destruct Hc as [Hc | Hc]; rewrite Hc in Hid'; [exact Hid'|].
      apply lookup_delete_Some in Hid' as [_ Hid']. exact Hid'. }
    assert (Hne : n' <> fileName).
    { intros ->. pose proof (proj2 Htm _ _ _ _ Ht Hold eq_refl) as ->.
      congruence. }
    apply (Hfull _ _ _ Hold); [|exact Hname].
    apply (fire_other_source s id rs _ f' Ht Hin). simpl. congruence.
Qed.

Lemma inv_fire_upload s id rs fileName :
  liveTimers s !! id = Some (uploadInterval fileName) ->
  uniqueInv s -> uniqueInv (step (Fire id rs) s).
Proof.
  intros Ht Hinv. destruct (fire_inv_files s id rs Hinv) as [Hf' Hn'].
  destruct (decide (fileName ∈ map name (files s))) as [Hin | Hnot].
  - apply list_elem_of_fmap_1 in Hin as (f & Hname & Hin).
    apply list_elem_of_split in Hin as (l1 & l2 & Hfs).
    symmetry in Hname.
    pose proof (fire_upload_at s id rs fileName l1 f l2
                  (inv_names s Hinv) Ht Hfs Hname) as Hstep.
    pose proof (inv_names s Hinv) as Hnd. rewrite Hfs in Hnd.
    apply NoDup_names_split in Hnd as [Hl1 Hl2].
    destruct Hinv as [Hf Hn Htm Hfull].
    assert (Hnew : forall g f0, f0 ∈ l1 ++ g :: l2 -> f0 = g \/ f0 ∈ files s).
    { intros g f0 [H1 | [-> | H2]%elem_of_cons]%elem_of_app; auto;
        right; rewrite Hfs; apply elem_of_app; [left | right; right]; assumption. }
    assert (Hnot : forall id' n', liveTimers s !! id' = Some (analysisTimeout n') ->
                     n' <> fileName).
    { intros id' n' Hid' ->.
      pose proof (proj2 Htm _ _ _ _ Ht Hid' eq_refl) as ->. congruence. }
    destruct (uploadTick_cases fileName id f (enter rs s))
      as [[_ Heq] | [(_ & Hs & _ & Hfst & Htm' & Hfr') | (_ & Hs & _ & Hfst & Htm' & Hfr')]].
    + rewrite Heq in Hstep. cbn [fst snd] in Hstep.
      rewrite <- Hfs, leave_enter in Hstep. rewrite Hstep.
      constructor; assumption.
    + constructor; [exact Hf' | exact Hn' | |]; rewrite Hstep; unfold leave;
        simpl; rewrite Htm', ?Hfr'; simpl; [exact Htm|].
      intros id' n' f0 Hid' Hf0 Hname0.
      destruct (Hnew _ _ Hf0) as [-> | Hold].
      * rewrite Hfst in Hname0. simpl in Hname0.
        destruct (Hnot _ _ Hid'). congruence.
      * apply (Hfull _ _ _ Hid' Hold Hname0).
    + constructor; [exact Hf' | exact Hn' | |]; rewrite Hstep; unfold leave;
        simpl; rewrite Htm', ?Hfr'; simpl.
      * eapply timersOk_replace; [exact Htm | exact Ht | reflexivity].
      * intros id' n' f0
          [[_ Heq] | [_ [_ Hid']%lookup_delete_Some]]%lookup_insert_Some
          Hf0 Hname0.
        -- injection Heq as <-.
           apply elem_of_app in Hf0 as [H1 | [-> | H2]%elem_of_cons].
           ++ destruct (Hl1 _ H1). congruence.
           ++ rewrite Hfst. split; reflexivity.
           ++ destruct (Hl2 _ H2). congruence.
        -- destruct (Hnew _ _ Hf0) as [-> | Hold].
           ++ rewrite Hfst in Hname0. simpl in Hname0.
              destruct (Hnot _ _ Hid'). congruence.
           ++ apply (Hfull _ _ _ Hid' Hold Hname0).
  - rewrite (ticker_without_target s id rs _ uploading Ht eq_refl);
      [exact Hinv|].
    intros f Hf [Hname _]. simpl in Hname. apply Hnot. rewrite <- Hname.
    apply (list_elem_of_fmap_2 name), Hf.
Qed.

Lemma step_uploadedFiles e s :
  uploadedFiles (step e s) =
    uploadedFiles s ++ match e with Submit m _ => [m] | _ => [] end.
Proof.
  destruct e as [m rs | m | id rs].
  - reflexivity.
  - simpl. rewrite app_nil_r. reflexivity.
  - rewrite fire_uploadedFiles, app_nil_r. reflexivity.
Qed.

Lemma step_uniqueInv e s :
  NoDup (uploadedFiles (step e s)) -> uniqueInv s -> uniqueInv (step e s).
Proof.
  intros Hnd Hinv. destruct e as [m rs | m | id rs].
  - apply inv_submit; assumption.
  - apply inv_remove; assumption.
  - destruct (liveTimers s !! id) as [[n|n|n]|] eqn:Ht.
    + eapply inv_fire_upload; eassumption.
    + eapply inv_fire_timeout; eassumption.
    + eapply inv_fire_analysis; eassumption.
    + rewrite fire_dead by exact Ht. exact Hinv.
Qed.

Lemma reachable_uniqueInv s :
  reachable s -> NoDup (uploadedFiles s) -> uniqueInv s.
Proof.
  induction 1 as [|e s _ IH He]; intros Hnd.
  - constructor; simpl.
    + intros f Hf. inversion Hf.
    + constructor.
    + split; intros *; rewrite lookup_empty; discriminate.
    + intros id n f Hid. rewrite lookup_empty in Hid. discriminate.
  - apply step_uniqueInv; [exact Hnd|]. apply IH.
    rewrite step_uploadedFiles in Hnd. apply NoDup_app in Hnd. tauto.
Qed.

(** ** Phases and issue counts when no name is submitted twice

    What C1 and C5 say does hold in the runs in which every submitted name
    is new: the reset of a finished record needs a second record, or a
    second timer, of the same name. *)

Lemma uploadTick_noEarlyIssues fileName id f w :
  noEarlyIssues f -> noEarlyIssues (fst (uploadTick fileName id f w)).
Proof.
  intros Hf.
  destruct (uploadTick_cases fileName id f w)
    as [[_ ->] | [(_ & Hs & _ & -> & _) | (_ & Hs & _ & -> & _)]];
    [exact Hf | |]; intros _; simpl; apply Hf; congruence.
Qed.

Lemma analysisTick_noEarlyIssues fileName id f w :
  noEarlyIssues f -> noEarlyIssues (fst (analysisTick fileName id f w)).
Proof.
  intros Hf. unfold analysisTick. destruct (decide _) as [[_ Hs]|_]; [|exact Hf].
  unfold bind, Math_random, clearInterval, ret. simpl.
  destruct (Qle_bool _ _); simpl; intros Hc; simpl in *;
    [congruence | apply Hf; congruence].
Qed.

Lemma step_noEarlyIssues e s :
  uniqueInv s ->
  Forall noEarlyIssues (files s) -> Forall noEarlyIssues (files (step e s)).
Proof.
  intros Hinv Hs. destruct e as [m rs | m | id rs].
  - simpl. apply Forall_app. split; [exact Hs|].
    constructor; [|constructor]. intros _. reflexivity.
  - simpl. unfold removeFile. apply Forall_forall.
    intros f [_ Hf]%list_elem_of_filter.
    rewrite Forall_forall in Hs. apply Hs, Hf.
  - simpl. unfold fire. destruct (liveTimers s !! id) as [[n|n|n]|] eqn:Ht.
    + destruct (mapM_rel (uploadTick n id) (fun _ => True)
                  (fun a b => noEarlyIssues a -> noEarlyIssues b))
        with (l := files s) (w := enter rs s) as [H _]; [|exact I|].
      * intros a w _. split; [apply uploadTick_noEarlyIssues | exact I].
      * destruct (mapM _ _ _) as [fs w]. simpl in *.
        eapply Forall2_Forall_step; [|exact H | exact Hs]. auto.
    + simpl. apply Forall_forall.
      intros f' (f & -> & Hf)%list_elem_of_fmap_1.
      rewrite Forall_forall in Hs. unfold startAnalysis.
      destruct (decide (name f = n)) as [Hn|_]; [|apply Hs, Hf].
      intros _. simpl. apply (Hs f Hf).
      destruct (inv_full s Hinv id n f Ht Hf Hn) as [-> _]. discriminate.
    + destruct (mapM_rel (analysisTick n id) (fun _ => True)
                  (fun a b => noEarlyIssues a -> noEarlyIssues b))
        with (l := files s) (w := enter rs s) as [H _]; [|exact I|].
      * intros a w _. split; [apply analysisTick_noEarlyIssues | exact I].
      * destruct (mapM _ _ _) as [fs w]. simpl in *.
        eapply Forall2_Forall_step; [|exact H | exact Hs]. auto.
    + exact Hs.
Qed.

Lemma NoDup_uploadedFiles_step e s :
  NoDup (uploadedFiles (step e s)) -> NoDup (uploadedFiles s).
Proof.
  rewrite step_uploadedFiles. intros H%NoDup_app. tauto.
Qed.

Lemma reachable_noEarlyIssues s :
  reachable s -> NoDup (uploadedFiles s) -> Forall noEarlyIssues (files s).
Proof.
  induction 1 as [|e s Hs IH He]; intros Hnd; [constructor|].
  pose proof (NoDup_uploadedFiles_step e s Hnd) as Hnd'.
  apply step_noEarlyIssues; [apply reachable_uniqueInv; assumption | auto].
Qed.

(** Without repeated names a firing moves the record at a position forward
    by at most one phase: Uploading to Analyzing, Analyzing to Completed. *)
Lemma phases_forward_when_names_unique s id rs i f f' :
  reachable s -> NoDup (uploadedFiles s) -> validDraws rs ->
  files s !! i = Some f -> files (step (Fire id rs) s) !! i = Some f' ->
  status f' = status f \/
  (status f = uploading /\ status f' = analyzing) \/
  (status f = analyzing /\ status f' = completed).
Proof.
  intros Hreach Hnd Hrs Hf Hf'.
  destruct (liveTimers s !! id) as [[n|n|n]|] eqn:Ht.
  - pose proof (fire_upload_files s id rs n Hrs Ht) as H2.
    destruct (Forall2_lookup_lr _ _ _ _ _ _ H2 Hf Hf'); simpl; auto.
  - rewrite (fire_timeout_files s id rs n Ht), list_lookup_fmap, Hf in Hf'.
    injection Hf' as <-. unfold startAnalysis.
    destruct (decide (name f = n)) as [Hn|_]; [|left; reflexivity].
    right. left. split; [|reflexivity].
    apply (inv_full s (reachable_uniqueInv s Hreach Hnd) id n f Ht);
      [eapply list_elem_of_lookup_2, Hf | exact Hn].
  - pose proof (fire_analysis_files s id rs n Hrs Ht) as H2.
    destruct (Forall2_lookup_lr _ _ _ _ _ _ H2 Hf Hf'); simpl; auto.
  - rewrite fire_dead in Hf' by exact Ht. left. congruence.
Qed.

(** Without repeated names a record has no issue count before it is
    Completed, gets one in [[0, 8)] when it completes, and is not changed
    by any firing afterwards. *)
Lemma issues_once_when_names_unique s id rs i f f' :
  reachable s -> NoDup (uploadedFiles s) -> validDraws rs ->
  files s !! i = Some f -> files (step (Fire id rs) s) !! i = Some f' ->
  (status f <> completed -> issues f = None) /\
  (status f = completed -> f' = f) /\
  (status f' = completed ->
     exists k, issues f' = Some k /\ (0 <= k < 8)%Z).
Proof.
  intros Hreach Hnd Hrs Hf Hf'. split; [|split].
  - pose proof (reachable_noEarlyIssues s Hreach Hnd) as H.
    rewrite Forall_forall in H. apply H. eapply list_elem_of_lookup_2, Hf.
  - intros Hs. destruct (liveTimers s !! id) as [[n|n|n]|] eqn:Ht.
    + pose proof (fire_upload_files s id rs n Hrs Ht) as H2.
      destruct (Forall2_lookup_lr _ _ _ _ _ _ H2 Hf Hf'); congruence.
    + rewrite (fire_timeout_files s id rs n Ht), list_lookup_fmap, Hf in Hf'.
      injection Hf' as <-. unfold startAnalysis.
      destruct (decide (name f = n)) as [Hn|_]; [|reflexivity].
      destruct (inv_full s (reachable_uniqueInv s Hreach Hnd) id n f Ht)
        as [Hu _]; [eapply list_elem_of_lookup_2, Hf | exact Hn | congruence].
    + pose proof (fire_analysis_files s id rs n Hrs Ht) as H2.
      destruct (Forall2_lookup_lr _ _ _ _ _ _ H2 Hf Hf'); congruence.
    + rewrite fire_dead in Hf' by exact Ht. congruence.
  - intros Hs.
    pose proof (reachable_wf _ (reachable_step (Fire id rs) s Hreach Hrs)) as H.
    rewrite Forall_forall in H.
    apply (wf_completed f'); [|exact Hs].
    apply H. eapply list_elem_of_lookup_2, Hf'.
Qed.

(** With or without repeated names, no firing takes a record from
    Uploading straight to Completed. *)
Lemma uploading_never_completes_directly s id rs i f f' :
  validDraws rs ->
  files s !! i = Some f -> files (step (Fire id rs) s) !! i = Some f' ->
  status f = uploading -> status f' <> completed.
Proof.
  intros Hrs Hf Hf' Hs.
  destruct (liveTimers s !! id) as [[n|n|n]|] eqn:Ht.
  - pose proof (fire_upload_files s id rs n Hrs Ht) as H2.
    destruct (Forall2_lookup_lr _ _ _ _ _ _ H2 Hf Hf'); simpl; congruence.
  - rewrite (fire_timeout_files s id rs n Ht), list_lookup_fmap, Hf in Hf'.
    injection Hf' as <-. unfold startAnalysis.
    destruct (decide _); simpl; congruence.
  - pose proof (fire_analysis_files s id rs n Hrs Ht) as H2.
    destruct (Forall2_lookup_lr _ _ _ _ _ _ H2 Hf Hf'); simpl; congruence.
  - rewrite fire_dead in Hf' by exact Ht. congruence.
Qed.

(** * The rest of the component: properties *)

(** ** Batches of files *)

Lemma processFiles_run fileList s :
  processFiles fileList s = run (map submitOf fileList) s.
Proof.
  revert s. induction fileList as [|[n rs] l IH]; intros s; [reflexivity|].
  simpl. apply IH.
Qed.

Lemma processFiles_effect fileList s :
  files (processFiles fileList s) = files s ++ map freshRecord fileList /\
  uploadedFiles (processFiles fileList s) = uploadedFiles s ++ map fst fileList /\
  freshTimer (processFiles fileList s) = (freshTimer s + length fileList)%nat /\
  (forall k p, fileList !! k = Some p ->
     liveTimers (processFiles fileList s) !! (freshTimer s + k)%nat =
       Some (uploadInterval (fst p))) /\
  (forall id, (id < freshTimer s)%nat ->
     liveTimers (processFiles fileList s) !! id = liveTimers s !! id).
Proof.
  revert s. induction fileList as [|[n rs] l IH]; intros s.
  - simpl. rewrite !app_nil_r, Nat.add_0_r. repeat split; auto.
    intros k p Hk. discriminate Hk.
  - destruct (IH (simulateFileProcessing n rs s)) as (H1 & H2 & H3 & H4 & H5).
    simpl processFiles. rewrite H1, H2, H3. simpl.
    rewrite <- !app_assoc. simpl.
    split; [reflexivity|]. split; [reflexivity|]. split; [lia|]. split.
    + intros [|k] p Hk.
      * injection Hk as <-. rewrite Nat.add_0_r, H5 by (simpl; lia).
        simpl. apply lookup_insert_eq.
      * simpl in Hk. rewrite <- (H4 k p Hk). simpl. f_equal. lia.
    + intros id Hid. rewrite H5 by (simpl; lia). simpl.
      apply lookup_insert_ne. lia.
Qed.

(** X1. Dropping or selecting a list of files is submitting them one after
    the other: one Uploading record at progress 0 per file is appended, in
    list order, the names are appended to [App]'s list in the same order,
    the k-th file's ticker gets the k-th new handle, and no timer that was
    live is touched. A drop switches the highlight off, a selection leaves
    it; an empty drop and a selection with no file list change no record. *)
Theorem handleDrop_submits_in_order droppedFiles c :
  isDragOver (handleDrop droppedFiles c) = false /\
  core (handleDrop droppedFiles c) = run (map submitOf droppedFiles) (core c) /\
  handleFileSelect (Some droppedFiles) c =
    mkComponent (isDragOver c) (core (handleDrop droppedFiles c)) /\
  handleFileSelect None c = c /\
  files (core (handleDrop droppedFiles c)) =
    files (core c) ++ map freshRecord droppedFiles /\
  uploadedFiles (core (handleDrop droppedFiles c)) =
    uploadedFiles (core c) ++ map fst droppedFiles /\
  freshTimer (core (handleDrop droppedFiles c)) =
    (freshTimer (core c) + length droppedFiles)%nat /\
  (forall k p, droppedFiles !! k = Some p ->
     liveTimers (core (handleDrop droppedFiles c)) !! (freshTimer (core c) + k)%nat =
       Some (uploadInterval (fst p))) /\
  (forall id, (id < freshTimer (core c))%nat ->
     liveTimers (core (handleDrop droppedFiles c)) !! id =
       liveTimers (core c) !! id).
Proof.
  split; [reflexivity|]. split; [apply processFiles_run|].
  split; [reflexivity|]. split; [destruct c; reflexivity|].
  apply processFiles_effect.
Qed.

Lemma handleDrop_submits_in_order_witness :
  liveTimers
    (core (handleDrop [("A.fig", draws []); ("B.fig", draws [])]
             (mkComponent true init)))
    !! (freshTimer (core (mkComponent true init)) + 1)%nat =
  Some (uploadInterval (fst ("B.fig", draws []))).
Proof.
  destruct (handleDrop_submits_in_order
              [("A.fig", draws []); ("B.fig", draws [])]
              (mkComponent true init)) as (_ & _ & _ & _ & _ & _ & _ & H & _).
  apply (H 1%nat ("B.fig", draws [])). reflexivity.
Defined.

(** X2. Submitting a name and removing it at once is not a round trip:
    the records are those of a plain removal, but the name stays in [App]'s
    list and the upload ticker stays registered. *)
Theorem submit_then_remove (fileName : string) rs s :
  step (Remove fileName) (step (Submit fileName rs) s) =
    mkState (removeFile fileName (files s))
            (uploadedFiles s ++ [fileName])
            (<[freshTimer s := uploadInterval fileName]> (liveTimers s))
            (S (freshTimer s)).
Proof.
  simpl. unfold leave. simpl. f_equal.
  unfold removeFile. rewrite filter_app, filter_cons_False by (simpl; auto).
  rewrite filter_nil. apply app_nil_r.
Qed.

(** ** [App]'s list of uploaded files *)

(** X3. [App]'s list is a log: over any run it grows by exactly the names
    submitted, in order; removals and timers never change it. *)
Theorem uploadedFiles_is_a_log tr s :
  uploadedFiles (run tr s) = uploadedFiles s ++ submitted tr.
Proof.
  revert s. induction tr as [|e tr IH]; intros s; simpl.
  - rewrite app_nil_r. reflexivity.
  - rewrite IH, step_uploadedFiles. destruct e; simpl;
      rewrite <- ?app_assoc, ?app_nil_r; reflexivity.
Qed.

Lemma names_filter_sublist (P : UploadedFile -> Prop)
    `{forall f, Decision (P f)} l :
  map name (filter P l) `sublist_of` map name l.
Proof.
  induction l as [|f l IH]; [constructor|].
  rewrite filter_cons. destruct (decide (P f)); simpl.
  - apply sublist_skip, IH.
  - apply sublist_cons, IH.
Qed.

(** X4. In every reachable state the names of the records, in the order
    they are listed, are a subsequence of [App]'s list: records stay in
    submission order, and there are never more records than submissions. *)
Theorem record_names_follow_log s :
  reachable s ->
  map name (files s) `sublist_of` uploadedFiles s /\
  (length (files s) <= length (uploadedFiles s))%nat.
Proof.
  intros Hs.
  assert (H : map name (files s) `sublist_of` uploadedFiles s).
  { induction Hs as [|e s _ IH He]; [constructor|].
    destruct e as [n rs | n | id rs].
    - simpl. rewrite map_app. apply sublist_app; [exact IH | reflexivity].
    - simpl. etransitivity; [apply names_filter_sublist | exact IH].
    - rewrite fire_names, fire_uploadedFiles. exact IH. }
  split; [exact H|].
  apply sublist_length in H. rewrite length_map in H. exact H.
Qed.

Lemma record_names_follow_log_witness :
  map name (files (run resubmitted init)) `sublist_of`
    uploadedFiles (run resubmitted init) /\
  (length (files (run resubmitted init)) <=
   length (uploadedFiles (run resubmitted init)))%nat.
Proof.
  apply (record_names_follow_log (run resubmitted init)).
  apply run_reachable; [apply reachable_init | apply resubmitted_valid].
Defined.

(** ** Timers: who clears what *)

Lemma step_handlesOk e s : handlesOk s -> handlesOk (step e s).
Proof.
  intros Hs. destruct e as [n rs | n | id rs].
  - intros i t Hi. simpl in Hi |- *.
    apply lookup_insert_Some in Hi as [[<- _] | [_ Hi]]; [lia|].
    apply Hs in Hi. lia.
  - exact Hs.
  - unfold handlesOk. simpl. unfold fire.
    destruct (liveTimers s !! id) as [[n|n|n]|] eqn:Ht; [| | |exact Hs].
    + destruct (mapM_rel (uploadTick n id)
                  (fun w => forall i t, timers w !! i = Some t -> (i < nextTimer w)%nat)
                  (fun _ _ => True)) with (l := files s) (w := enter rs s)
        as [_ H]; [|exact Hs|].
      * intros a w Hw. split; [exact I|].
        destruct (uploadTick_timers n id a w) as [[-> ->] | [-> ->]];
          [exact Hw|].
        intros i t [[<- _] | [_ [_ Hi]%lookup_delete_Some]]%lookup_insert_Some;
          [lia | apply Hw in Hi; lia].
      * destruct (mapM _ _ _) as [fs w]. exact H.
    + simpl. intros i t [[<- _] | [_ [_ Hi]%lookup_delete_Some]]%lookup_insert_Some;
        [lia | apply Hs in Hi; lia].
    + destruct (mapM_rel (analysisTick n id)
                  (fun w => forall i t, timers w !! i = Some t -> (i < nextTimer w)%nat)
                  (fun _ _ => True)) with (l := files s) (w := enter rs s)
        as [_ H]; [|exact Hs|].
      * intros a w Hw. split; [exact I|].
        destruct (analysisTick_timers n id a w) as [[-> | ->] ->];
          [exact Hw|].
        intros i t [_ Hi]%lookup_delete_Some. apply (Hw _ _ Hi).
      * destruct (mapM _ _ _) as [fs w]. exact H.
Qed.

Lemma reachable_handlesOk s : reachable s -> handlesOk s.
Proof.
  induction 1 as [|e s _ IH _]; [|apply step_handlesOk, IH].
  intros id t Hid. simpl in Hid. rewrite lookup_empty in Hid. discriminate.
Qed.

Lemma step_keeps_other_timer e s id t :
  handlesOk s -> liveTimers s !! id = Some t -> ~ firesHandle id e ->
  liveTimers (step e s) !! id = Some t.
Proof.
  intros Hs Hid He. pose proof (Hs _ _ Hid) as Hlt.
  destruct e as [n rs | n | i rs].
  - simpl. rewrite lookup_insert_ne by lia. exact Hid.
  - exact Hid.
  - simpl in He. simpl. unfold fire.
    destruct (liveTimers s !! i) as [[n|n|n]|] eqn:Ht; [| | |exact Hid].
    + destruct (mapM_rel (uploadTick n i)
                  (fun w => timers w !! id = Some t /\ (id < nextTimer w)%nat)
                  (fun _ _ => True)) with (l := files s) (w := enter rs s)
        as [_ [H _]]; [|split; assumption|].
      * intros a w [Hw Hn]. split; [exact I|].
        destruct (uploadTick_timers n i a w) as [[-> ->] | [-> ->]];
          [split; assumption|].
        split; [|lia].
        rewrite lookup_insert_ne by lia. rewrite lookup_delete_ne by auto.
        exact Hw.
      * destruct (mapM _ _ _) as [fs w]. exact H.
    + simpl. rewrite lookup_insert_ne by lia.
      rewrite lookup_delete_ne by auto. exact Hid.
    + destruct (mapM_rel (analysisTick n i)
                  (fun w => timers w !! id = Some t)
                  (fun _ _ => True)) with (l := files s) (w := enter rs s)
        as [_ H]; [|exact Hid|].
      * intros a w Hw. split; [exact I|].
        destruct (analysisTick_timers n i a w) as [[-> | ->] _]; [exact Hw|].
        rewrite lookup_delete_ne by auto. exact Hw.
      * destruct (mapM _ _ _) as [fs w]. exact H.
Qed.

(** X5. A timer is cleared by its own firing only: in a reachable state,
    no submission, no removal and no firing of another handle clears or
    replaces a live timer (in particular [removeFile] clears none). *)
Theorem timer_cleared_only_by_itself e s id t :
  reachable s -> liveTimers s !! id = Some t -> ~ firesHandle id e ->
  liveTimers (step e s) !! id = Some t.
Proof.
  intros Hs. apply step_keeps_other_timer, reachable_handlesOk, Hs.
Qed.

Lemma timer_cleared_only_by_itself_witness :
  liveTimers (step (Remove "A.fig") (step (Submit "A.fig" (draws [])) init))
    !! 0%nat = Some (uploadInterval "A.fig").
Proof.
  apply (timer_cleared_only_by_itself (Remove "A.fig")
           (step (Submit "A.fig" (draws [])) init) 0%nat).
  - apply reachable_step; [apply reachable_init|].
    apply validDraws_draws. constructor.
  - reflexivity.
  - simpl. auto.
Defined.

(** X6. The ticker of a removed record is never cleared: once no record
    has its name, an upload or analysis interval of that name stays
    registered through every later run in which the name is not submitted
    again (its firings find no record, and nothing else clears it). *)
Theorem removed_record_ticker_leaks s fileName id t phase tr :
  reachable s -> absent fileName s ->
  liveTimers s !! id = Some t -> timerName t = fileName ->
  tickerPhase t = Some phase ->
  Forall (fun e => ~ isSubmitOf fileName e) tr ->
  liveTimers (run tr s) !! id = Some t.
Proof.
  intros Hs Habs Hid Hn Hp Htr.
  apply reachable_handlesOk in Hs. revert s Hs Habs Hid.
  induction Htr as [|e tr He _ IH]; intros s Hs Habs Hid; [exact Hid|].
  simpl. apply IH.
  - apply step_handlesOk, Hs.
  - apply step_absent; assumption.
  - destruct e as [n rs | n | i rs];
      try (apply step_keeps_other_timer; simpl; auto; fail).
    destruct (decide (i = id)) as [-> | Hne];
      [|apply step_keeps_other_timer; simpl; auto].
    rewrite (ticker_without_target s id rs t phase Hid Hp); [exact Hid|].
    intros f Hf [Hm _]. apply (Habs f Hf). congruence.
Qed.

Lemma removed_record_ticker_leaks_witness :
  liveTimers (run [Fire 0 (draws [1 # 2]); Submit "B.fig" (draws []);
                   Fire 0 (draws [9 # 10]); Remove "B.fig"]
                (run [Submit "A.fig" (draws []); Remove "A.fig"] init))
    !! 0%nat = Some (uploadInterval "A.fig").
Proof.
  apply (removed_record_ticker_leaks
           (run [Submit "A.fig" (draws []); Remove "A.fig"] init)
           "A.fig" 0%nat (uploadInterval "A.fig") uploading).
  - apply run_reachable; [apply reachable_init|]. valid_trace.
  - intros f Hf. vm_compute in Hf. inversion Hf.
  - reflexivity.
  - reflexivity.
  - reflexivity.
  - repeat constructor; simpl; auto; discriminate.
Defined.

(** ** Timers of the runs without repeated names *)

Lemma analysisTick_cases fileName id f w :
  (~ (name f = fileName /\ status f = analyzing) /\
   analysisTick fileName id f w = (f, w)) \/
  (name f = fileName /\ status f = analyzing /\
   (progress f + random w 0%nat * 25 < 100)%Q /\
   fst (analysisTick fileName id f w) =
     {| name := name f; size := size f; status := status f;
        progress := progress f + random w 0%nat * 25; issues := issues f |} /\
   timers (snd (analysisTick fileName id f w)) = timers w /\
   nextTimer (snd (analysisTick fileName id f w)) = nextTimer w) \/
  (name f = fileName /\ status f = analyzing /\
   (100 <= progress f + random w 0%nat * 25)%Q /\
   fst (analysisTick fileName id f w) =
     {| name := name f; size := size f; status := completed;
        progress := 100; issues := Some (Qfloor (random w 1%nat * 8)) |} /\
   timers (snd (analysisTick fileName id f w)) = delete id (timers w) /\
   nextTimer (snd (analysisTick fileName id f w)) = nextTimer w).
Proof.
  unfold analysisTick. destruct (decide _) as [[Hn Hs]|Hno].
  - right. unfold bind, Math_random, clearInterval, ret. simpl.
    destruct (Qle_bool _ _) eqn:E; simpl; [right | left];
      repeat split; auto.
    + apply Qle_bool_iff, E.
    + apply Qle_bool_false, E.
  - left. split; [exact Hno | reflexivity].
Qed.

Lemma fire_analysis_at s id rs fileName l1 f l2 :
  NoDup (map name (files s)) ->
  liveTimers s !! id = Some (analysisInterval fileName) ->
  files s = l1 ++ f :: l2 -> name f = fileName ->
  step (Fire id rs) s =
    leave (l1 ++ fst (analysisTick fileName id f (enter rs s)) :: l2)
          (uploadedFiles s)
          (snd (analysisTick fileName id f (enter rs s))).
Proof.
  intros Hnd Ht Hfs Hn. simpl. unfold fire. rewrite Ht, Hfs.
  rewrite Hfs in Hnd. apply NoDup_names_split in Hnd as [H1 H2].
  rewrite mapM_single; [reflexivity | |].
  - intros x Hx w'. apply analysisTick_other. rewrite <- Hn. apply H1, Hx.
  - intros x Hx w'. apply analysisTick_other. rewrite <- Hn. apply H2, Hx.
Qed.

Lemma uploadTick_status fileName id f w :
  status (fst (uploadTick fileName id f w)) = status f.
Proof.
  destruct (uploadTick_cases fileName id f w)
    as [[_ ->] | [(_ & Hs & _ & -> & _) | (_ & Hs & _ & -> & _)]];
    simpl; congruence.
Qed.

Lemma fire_lookup_source s id rs i f' :
  files (step (Fire id rs) s) !! i = Some f' ->
  exists f, files s !! i = Some f /\ label f = label f'.
Proof.
  intros Hi. pose proof (fire_labels s id rs) as Hl.
  apply (f_equal (fun l => l !! i)) in Hl.
  change (map label) with (fmap (M := list) label) in Hl.
  rewrite !list_lookup_fmap, Hi in Hl. simpl in Hl.
  destruct (files s !! i) as [f|] eqn:Hf; [|discriminate Hl].
  simpl in Hl. injection Hl as Hn Hsz. exists f. split; [reflexivity|].
  unfold label. congruence.
Qed.

(** A firing of an upload ticker or of a timeout completes no record. *)
Lemma fire_completes_by_analysis s id rs t i f f' :
  liveTimers s !! id = Some t ->
  files s !! i = Some f -> files (step (Fire id rs) s) !! i = Some f' ->
  status f <> completed -> status f' = completed ->
  t = analysisInterval (timerName t).
Proof.
  intros Ht Hf Hf' Hs Hs'. destruct t as [n|n|n]; [| |reflexivity]; exfalso.
  - revert Hf'. simpl. unfold fire. rewrite Ht.
    destruct (mapM_rel (uploadTick n id) (fun _ => True)
                (fun a b => status b = status a)) with (l := files s)
      (w := enter rs s) as [H _]; [|exact I|].
    + intros a w _. split; [apply uploadTick_status | exact I].
    + destruct (mapM _ _ _) as [fs w]. simpl in *. intros Hf'.
      pose proof (Forall2_lookup_lr _ _ _ _ _ _ H Hf Hf'). congruence.
  - rewrite (fire_timeout_files s id rs n Ht), list_lookup_fmap, Hf in Hf'.
    injection Hf' as <-. unfold startAnalysis in Hs'.
    destruct (decide _); simpl in Hs'; congruence.
Qed.

Lemma step_completedQuiet e s :
  NoDup (uploadedFiles (step e s)) ->
  uniqueInv s -> completedQuiet s -> completedQuiet (step e s).
Proof.
  intros Hnd Hinv HJ. destruct e as [m rs | m | id rs].
  - intros f i t Hf Hs Hi E. simpl in Hf, Hi, Hnd.
    assert (Hm : m ∉ uploadedFiles s).
    { apply NoDup_app in Hnd as (_ & Hd & _). intros Hin.
      apply (Hd _ Hin). left. }
    apply elem_of_app in Hf as [Hf | ->%list_elem_of_singleton];
      [|discriminate Hs].
    apply lookup_insert_Some in Hi as [[_ <-] | [_ Hi]].
    + apply Hm. simpl in E. rewrite E. apply (inv_files s Hinv f Hf).
    + apply (HJ f i t Hf Hs Hi E).
  - intros f i t [_ Hf]%list_elem_of_filter Hs Hi. apply (HJ f i t Hf Hs Hi).
  - destruct (liveTimers s !! id) as [t0|] eqn:Ht;
      [|rewrite fire_dead by exact Ht; exact HJ].
    intros f' i' t' Hf' Hs' Hi' E.
    destruct (decide (name f' = timerName t0)) as [Hn | Hn].
    + apply list_elem_of_lookup in Hf' as [k Hk].
      destruct (fire_lookup_source s id rs k f' Hk) as (f & Hf & Hl).
      injection Hl as Hname _.
      assert (Hnc : status f <> completed).
      { intros Hc. apply (HJ f id t0); [eapply list_elem_of_lookup_2, Hf | | |];
          auto. congruence. }
      pose proof (fire_completes_by_analysis s id rs t0 k f f' Ht Hf Hk Hnc Hs')
        as Ht0.
      rewrite Ht0 in Ht.
      destruct (list_elem_of_split_length _ _ _ Hf) as (l1 & l2 & Hfs & Hlen).
      assert (Hfn : name f = timerName t0) by congruence.
      pose proof (fire_analysis_at s id rs (timerName t0) l1 f l2
                    (inv_names s Hinv) Ht Hfs Hfn) as Hstep.
      rewrite Hstep in Hk, Hi'. unfold leave in Hk, Hi'. simpl in Hk, Hi'.
      rewrite Hlen, list_lookup_middle in Hk by reflexivity.
      injection Hk as Hk.
      destruct (analysisTick_cases (timerName t0) id f (enter rs s))
        as [[_ Heq] | [(_ & Hs0 & _ & Hfst & _) | (_ & _ & _ & _ & Htm & _)]].
      * rewrite Heq in Hk. simpl in Hk. congruence.
      * rewrite Hfst in Hk. rewrite <- Hk in Hs'. simpl in Hs'. congruence.
      * rewrite Htm in Hi'. simpl in Hi'.
        apply lookup_delete_Some in Hi' as [Hne Hi'].
        apply Hne.
        apply (proj2 (inv_timers s Hinv) _ _ _ _ Ht Hi'). simpl. congruence.
    + pose proof (fire_other_source s id rs t0 f' Ht Hf' Hn) as Hold.
      destruct (fire_inherits s id rs t0 Ht i' t' Hi') as [Hi | Hi];
        [apply (HJ f' i' t' Hold Hs' Hi E) | congruence].
Qed.

Lemma reachable_completedQuiet s :
  reachable s -> NoDup (uploadedFiles s) -> completedQuiet s.
Proof.
  induction 1 as [|e s Hs IH He]; intros Hnd.
  - intros f id t Hf. inversion Hf.
  - pose proof (NoDup_uploadedFiles_step e s Hnd) as Hnd'.
    apply step_completedQuiet; [exact Hnd | |auto].
    apply reachable_uniqueInv; assumption.
Qed.

(** X7. While no name has been submitted twice the timers are kept in
    hand: at most one timer is live for a name, every live timer belongs
    to a submitted name, and a Completed record has no live timer at all
    (its analysis ticker was cleared when it completed). *)
Theorem timers_when_names_unique s :
  reachable s -> NoDup (uploadedFiles s) ->
  (forall id id' t t',
     liveTimers s !! id = Some t -> liveTimers s !! id' = Some t' ->
     timerName t = timerName t' -> id = id') /\
  (forall id t, liveTimers s !! id = Some t -> timerName t ∈ uploadedFiles s) /\
  (forall f id t, f ∈ files s -> status f = completed ->
     liveTimers s !! id = Some t -> timerName t <> name f).
Proof.
  intros Hs Hnd. pose proof (reachable_uniqueInv s Hs Hnd) as Hinv.
  split; [apply (proj2 (inv_timers s Hinv))|]. split.
  - intros id t Hid. apply (proj1 (inv_timers s Hinv) id t Hid).
  - apply reachable_completedQuiet; assumption.
Qed.

Lemma timers_when_names_unique_witness :
  timerName (uploadInterval "B.fig") <>
  name {| name := "A.fig"; size := "1.0MB"; status := completed;
          progress := 100; issues := Some 4%Z |}.
Proof.
  destruct (timers_when_names_unique
              (run (untilAnalysed ++ [Fire 2 (draws [9 # 10; 1 # 2]);
                                      Submit "B.fig" (draws [])]) init))
    as (_ & _ & H).
  - apply run_reachable; [apply reachable_init|].
    unfold untilAnalysed, uploadRun. simpl. valid_trace.
  - vm_compute. apply NoDup_cons. split; [|apply NoDup_singleton].
    intros Hin. apply list_elem_of_singleton in Hin. discriminate Hin.
  - apply (H _ 3%nat); [vm_compute; left | reflexivity | reflexivity].
Defined.

(** ** How fast a record can advance *)

Lemma count_S k : (count (S k) == count k + 1)%Q.
Proof.
  unfold count. rewrite Nat2Z.inj_succ. unfold Z.succ.
  rewrite inject_Z_plus. reflexivity.
Qed.

Lemma count_at_least k (b : nat) : (k < b)%nat -> (count k <= count b - 1)%Q.
Proof.
  intros H. unfold count.
  assert (Hz : (Z.of_nat k <= Z.of_nat b - 1)%Z) by lia.
  rewrite Zle_Qle in Hz. unfold Z.sub in Hz.
  rewrite inject_Z_plus, inject_Z_opp in Hz. exact Hz.
Qed.

Lemma step_lookup_some e s i f :
  ~ isRemove e -> files s !! i = Some f ->
  exists f1, files (step e s) !! i = Some f1.
Proof.
  intros He Hf. destruct e as [n rs | n | id rs]; [| destruct He; exact I |].
  - exists f. simpl. apply lookup_app_l_Some, Hf.
  - apply lookup_lt_is_Some.
    pose proof (f_equal (@length _) (fire_labels s id rs)) as Hl.
    rewrite !length_map in Hl. rewrite Hl.
    apply lookup_lt_Some in Hf. exact Hf.
Qed.

Lemma step_upload_bound e s i f f1 :
  validEvent e -> ~ isRemove e ->
  files s !! i = Some f -> files (step e s) !! i = Some f1 ->
  status f1 = uploading ->
  status f = uploading /\
  match e with
  | Fire _ _ => (progress f1 < progress f + 30)%Q
  | _ => f1 = f
  end.
Proof.
  intros He Hr Hf Hf1 Hs. destruct e as [n rs | n | id rs];
    [| destruct Hr; exact I |].
  - simpl in Hf1. rewrite (lookup_app_l_Some _ _ _ _ Hf) in Hf1.
    injection Hf1 as <-. auto.
  - simpl in He. destruct (liveTimers s !! id) as [[n|n|n]|] eqn:Ht.
    + pose proof (fire_upload_files s id rs n He Ht) as H2.
      destruct (Forall2_lookup_lr _ _ _ _ _ _ H2 Hf Hf1)
        as [Hno | r Hn Hs0 [Hr0 Hr1] Hlt | r Hn Hs0 [Hr0 Hr1] Hge];
        simpl; split; auto; lra.
    + rewrite (fire_timeout_files s id rs n Ht), list_lookup_fmap, Hf in Hf1.
      injection Hf1 as <-. unfold startAnalysis in *.
      destruct (decide _); simpl in *; [discriminate Hs|]. split; [exact Hs|lra].
    + pose proof (fire_analysis_files s id rs n He Ht) as H2.
      destruct (Forall2_lookup_lr _ _ _ _ _ _ H2 Hf Hf1)
        as [Hno | r Hn Hs0 [Hr0 Hr1] Hlt | r r' Hn Hs0 [Hr0 Hr1] Hr' Hge];
        simpl in *; try congruence. split; [exact Hs|lra].
    + rewrite fire_dead in Hf1 by exact Ht.
      rewrite Hf in Hf1. injection Hf1 as <-. split; [exact Hs|lra].
Qed.

Lemma run_upload_bound tr s i f f' :
  Forall validEvent tr -> Forall (fun e => ~ isRemove e) tr ->
  files s !! i = Some f -> files (run tr s) !! i = Some f' ->
  status f' = uploading ->
  status f = uploading /\
  (progress f' <= progress f + 30 * count (firings tr))%Q /\
  (firings tr <> 0%nat -> (progress f' < progress f + 30 * count (firings tr))%Q).
Proof.
  intros Hv Hr. revert s f.
  induction Hv as [|e tr He _ IH]; intros s f Hf Hf' Hs.
  - simpl in *. rewrite Hf in Hf'. injection Hf' as <-.
    split; [exact Hs|]. change (count 0) with 0%Q. split; [lra | congruence].
  - apply Forall_cons in Hr as [Hre Hr]. simpl in Hf'.
    destruct (step_lookup_some e s i f Hre Hf) as [f1 Hf1].
    destruct (IH Hr _ _ Hf1 Hf' Hs) as (Hs1 & Hle & Hlt).
    destruct (step_upload_bound e s i f f1 He Hre Hf Hf1 Hs1) as [Hs0 Hb].
    split; [exact Hs0|].
    destruct e as [n rs | n | id rs]; simpl firings.
    + subst f1. split; assumption.
    + destruct Hre. exact I.
    + rewrite count_S. split; [lra | intros _; lra].
Qed.

(** X8. Over any run without removals, a record that is still Uploading at
    the end was Uploading throughout, and its progress grew by less than 30
    per timer firing; so a record cannot get from 0 to a full bar in fewer
    than four firings. *)
Theorem upload_needs_four_firings tr s i f f' :
  Forall validEvent tr -> Forall (fun e => ~ isRemove e) tr ->
  files s !! i = Some f -> files (run tr s) !! i = Some f' ->
  status f' = uploading ->
  status f = uploading /\
  (progress f' <= progress f + 30 * count (firings tr))%Q /\
  ((progress f == 0)%Q -> (progress f' == 100)%Q -> (4 <= firings tr)%nat).
Proof.
  intros Hv Hr Hf Hf' Hs.
  destruct (run_upload_bound tr s i f f' Hv Hr Hf Hf' Hs) as (H1 & H2 & H3).
  split; [exact H1|]. split; [exact H2|].
  intros H0 H100. apply Nat.nlt_ge. intros Hlt.
  pose proof (count_at_least _ _ Hlt) as Hc.
  change (count 4) with 4%Q in Hc. lra.
Qed.

Lemma upload_needs_four_firings_witness :
  (4 <= firings (uploadRun 0))%nat.
Proof.
  destruct (upload_needs_four_firings (uploadRun 0)
              (step (Submit "A.fig" (draws [])) init) 0%nat
              {| name := "A.fig"; size := "1.0MB"; status := uploading;
                 progress := 0; issues := None |}
              {| name := "A.fig"; size := "1.0MB"; status := uploading;
                 progress := 100; issues := None |}) as (_ & _ & H).
  - unfold uploadRun. simpl. valid_trace.
  - unfold uploadRun. simpl. repeat constructor; simpl; auto.
  - reflexivity.
  - reflexivity.
  - reflexivity.
  - apply H; reflexivity.
Defined.

Lemma analysisWork_nonneg f : wfFile f -> (0 <= analysisWork f)%Q.
Proof.
  intros [Hlo _ _ _ _ _]. unfold analysisWork.
  destruct (status f); try exact Hlo; lra.
Qed.

Lemma step_analysis_bound e s i f f1 :
  Forall wfFile (files s) -> validEvent e -> ~ isRemove e ->
  files s !! i = Some f -> files (step e s) !! i = Some f1 ->
  match e with
  | Fire _ _ => (analysisWork f1 < analysisWork f + 25)%Q
  | _ => f1 = f
  end.
Proof.
  intros Hwf He Hr Hf Hf1.
  assert (H0 : (0 <= analysisWork f)%Q).
  { apply analysisWork_nonneg. rewrite Forall_forall in Hwf.
    apply Hwf. eapply list_elem_of_lookup_2, Hf. }
  destruct e as [n rs | n | id rs]; [| destruct Hr; exact I |].
  - simpl in Hf1. rewrite (lookup_app_l_Some _ _ _ _ Hf) in Hf1.
    injection Hf1 as <-. reflexivity.
  - simpl in He. destruct (liveTimers s !! id) as [[n|n|n]|] eqn:Ht.
    + pose proof (fire_upload_files s id rs n He Ht) as H2.
      destruct (Forall2_lookup_lr _ _ _ _ _ _ H2 Hf Hf1)
        as [Hno | r Hn Hs0 [Hr0 Hr1] Hlt | r Hn Hs0 [Hr0 Hr1] Hge];
        [lra | |]; unfold analysisWork in *; simpl; rewrite Hs0 in *; lra.
    + rewrite (fire_timeout_files s id rs n Ht), list_lookup_fmap, Hf in Hf1.
      injection Hf1 as <-. unfold startAnalysis.
      destruct (decide _); [unfold analysisWork at 1; simpl|]; lra.
    + pose proof (fire_analysis_files s id rs n He Ht) as H2.
      destruct (Forall2_lookup_lr _ _ _ _ _ _ H2 Hf Hf1)
        as [Hno | r Hn Hs0 [Hr0 Hr1] Hlt | r r' Hn Hs0 [Hr0 Hr1] Hr' Hge];
        [lra | |]; unfold analysisWork in *; simpl; rewrite Hs0 in *; lra.
    + rewrite fire_dead in Hf1 by exact Ht.
      rewrite Hf in Hf1. injection Hf1 as <-. lra.
Qed.

Lemma run_analysis_bound tr s i f f' :
  reachable s -> Forall validEvent tr -> Forall (fun e => ~ isRemove e) tr ->
  files s !! i = Some f -> files (run tr s) !! i = Some f' ->
  (analysisWork f' <= analysisWork f + 25 * count (firings tr))%Q /\
  (firings tr <> 0%nat ->
   (analysisWork f' < analysisWork f + 25 * count (firings tr))%Q).
Proof.
  intros Hs Hv Hr. revert s f Hs.
  induction Hv as [|e tr He _ IH]; intros s f Hs Hf Hf'.
  - simpl in *. rewrite Hf in Hf'. injection Hf' as <-.
    change (count 0) with 0%Q. split; [lra | congruence].
  - apply Forall_cons in Hr as [Hre Hr]. simpl in Hf'.
    destruct (step_lookup_some e s i f Hre Hf) as [f1 Hf1].
    destruct (IH Hr _ _ (reachable_step e s Hs He) Hf1 Hf') as (Hle & Hlt).
    pose proof (step_analysis_bound e s i f f1 (reachable_wf s Hs)
                  He Hre Hf Hf1) as Hb.
    destruct e as [n rs | n | id rs]; simpl firings.
    + subst f1. split; assumption.
    + destruct Hre. exact I.
    + rewrite count_S. split; [lra | intros _; lra].
Qed.

(** X9. From a reachable state, over any run without removals, the
    analysis of a record advances by less than 25 per timer firing
    (progress while Analyzing, counted as 100 once Completed and 0
    before); so a record that is Uploading, or Analyzing at 0, is never
    Completed within fewer than five firings. *)
Theorem analysis_needs_five_firings tr s i f f' :
  reachable s -> Forall validEvent tr -> Forall (fun e => ~ isRemove e) tr ->
  files s !! i = Some f -> files (run tr s) !! i = Some f' ->
  (analysisWork f' <= analysisWork f + 25 * count (firings tr))%Q /\
  ((analysisWork f == 0)%Q -> status f' = completed ->
   (5 <= firings tr)%nat).
Proof.
  intros Hs Hv Hr Hf Hf'.
  destruct (run_analysis_bound tr s i f f' Hs Hv Hr Hf Hf') as [H1 H2].
  split; [exact H1|].
  intros H0 Hc. apply Nat.nlt_ge. intros Hlt.
  assert (Hw : analysisWork f' = 100%Q) by (unfold analysisWork; rewrite Hc; reflexivity).
  rewrite Hw in H1, H2.
  pose proof (count_at_least _ _ Hlt) as Hk.
  change (count 5) with 5%Q in Hk.
  destruct (decide (firings tr = 0%nat)) as [E | E].
  - rewrite E in H1. change (count 0) with 0%Q in H1. lra.
  - specialize (H2 E). lra.
Qed.

Lemma analysis_needs_five_firings_witness :
  (5 <= firings (repeat (Fire 2 (draws [9 # 10; 1 # 2])) 5))%nat.
Proof.
  destruct (analysis_needs_five_firings
              (repeat (Fire 2 (draws [9 # 10; 1 # 2])) 5)
              (run ([Submit "A.fig" (draws [])] ++ uploadRun 0 ++
                    [Fire 1 (draws [])]) init) 0%nat
              {| name := "A.fig"; size := "1.0MB"; status := analyzing;
                 progress := 0; issues := None |}
              {| name := "A.fig"; size := "1.0MB"; status := completed;
                 progress := 100; issues := Some 4%Z |}) as (_ & H).
  - apply run_reachable; [apply reachable_init|].
    unfold uploadRun. simpl. valid_trace.
  - simpl. valid_trace.
  - simpl. repeat constructor; simpl; auto.
  - reflexivity.
  - reflexivity.
  - apply H; reflexivity.
Defined.

(** ** Removal and the records of other names *)

Lemma mapM_filter (f : UploadedFile -> M UploadedFile)
    (P : UploadedFile -> Prop) `{forall a, Decision (P a)} l w :
  (forall a, ~ P a -> forall w', f a w' = (a, w')) ->
  (forall a w', P a -> P (fst (f a w'))) ->
  mapM f (filter P l) w =
    (filter P (fst (mapM f l w)), snd (mapM f l w)).
Proof.
  intros Hskip Hkeep. revert w. induction l as [|a l IH]; intros w.
  - reflexivity.
  - rewrite (mapM_cons f a l). cbn [fst snd].
    rewrite filter_cons. destruct (decide (P a)) as [Ha | Ha].
    + rewrite mapM_cons, IH. cbn [fst snd].
      rewrite filter_cons_True by (apply Hkeep, Ha). reflexivity.
    + rewrite (Hskip a Ha). cbn [fst snd].
      rewrite filter_cons_False by exact Ha. apply IH.
Qed.

Lemma label_name f g : label f = label g -> name f = name g.
Proof. intros H. injection H as H _. exact H. Qed.

Lemma fire_unfold s id rs :
  step (Fire id rs) s =
    match liveTimers s !! id with
    | None => s
    | Some (uploadInterval n) =>
        leave (fst (mapM (uploadTick n id) (files s) (enter rs s)))
              (uploadedFiles s)
              (snd (mapM (uploadTick n id) (files s) (enter rs s)))
    | Some (analysisTimeout n) =>
        mkState (map (startAnalysis n) (files s)) (uploadedFiles s)
          (<[freshTimer s := analysisInterval n]> (delete id (liveTimers s)))
          (S (freshTimer s))
    | Some (analysisInterval n) =>
        leave (fst (mapM (analysisTick n id) (files s) (enter rs s)))
              (uploadedFiles s)
              (snd (mapM (analysisTick n id) (files s) (enter rs s)))
    end.
Proof.
  simpl. unfold fire. destruct (liveTimers s !! id) as [[n|n|n]|]; try reflexivity.
  - destruct (mapM _ _ _); reflexivity.
  - destruct (mapM _ _ _); reflexivity.
Qed.

(** X10. [remove(n)] commutes with whatever concerns another name: the
    firing of a timer that captured another name, the submission of
    another name, another removal. Removing a record before or after such
    an event gives the same state, so the records of other names advance
    exactly as they would have. *)
Theorem remove_commutes_with_other_names s (fileName : string) :
  (forall id rs t,
     liveTimers s !! id = Some t -> timerName t <> fileName ->
     step (Remove fileName) (step (Fire id rs) s) =
     step (Fire id rs) (step (Remove fileName) s)) /\
  (forall other rs, other <> fileName ->
     step (Remove fileName) (step (Submit other rs) s) =
     step (Submit other rs) (step (Remove fileName) s)) /\
  (forall other,
     step (Remove fileName) (step (Remove other) s) =
     step (Remove other) (step (Remove fileName) s)).
Proof.
  split; [|split].
  - intros id rs t Ht Hn.
    rewrite !fire_unfold. simpl liveTimers. rewrite Ht.
    destruct t as [n|n|n]; simpl in Hn; simpl; unfold leave; simpl.
    + unfold removeFile, enter. simpl.
      rewrite (mapM_filter (uploadTick n id)); [reflexivity | |].
      * intros a Ha w'. apply uploadTick_other. intros E. apply Ha. congruence.
      * intros a w' Ha. rewrite (label_name _ _ (uploadTick_label n id a w')).
        exact Ha.
    + f_equal. unfold removeFile.
      induction (files s) as [|a l IH]; [reflexivity|].
      simpl. rewrite !filter_cons.
      pose proof (label_name _ _ (startAnalysis_label n a)) as Hl.
      destruct (decide (name a <> fileName)) as [Ha | Ha].
      * rewrite decide_True by (rewrite Hl; exact Ha). simpl. f_equal. exact IH.
      * rewrite decide_False by (rewrite Hl; exact Ha). exact IH.
    + unfold removeFile, enter. simpl.
      rewrite (mapM_filter (analysisTick n id)); [reflexivity | |].
      * intros a Ha w'. apply analysisTick_other. intros E. apply Ha. congruence.
      * intros a w' Ha. rewrite (label_name _ _ (analysisTick_label n id a w')).
        exact Ha.
  - intros other rs Hne. simpl. unfold leave. simpl. f_equal.
    unfold removeFile. rewrite filter_app, filter_cons_True by (simpl; exact Hne).
    reflexivity.
  - intros other. simpl. f_equal. unfold removeFile.
    rewrite !list_filter_filter. apply list_filter_iff. tauto.
Qed.

Lemma remove_commutes_with_other_names_witness :
  step (Remove "A.fig")
    (step (Fire 1 (draws [1 # 2]))
       (run [Submit "A.fig" (draws []); Submit "B.fig" (draws [])] init)) =
  step (Fire 1 (draws [1 # 2]))
    (step (Remove "A.fig")
       (run [Submit "A.fig" (draws []); Submit "B.fig" (draws [])] init)).
Proof.
  destruct (remove_commutes_with_other_names
              (run [Submit "A.fig" (draws []); Submit "B.fig" (draws [])] init)
              "A.fig") as (H & _).
  apply (H 1%nat (draws [1 # 2]) (uploadInterval "B.fig"));
    [reflexivity | discriminate].
Defined.

(** ** What is shown for a record *)

(** X11. The error presentation is dead code: for no record of a reachable
    state does [getStatusIcon] give the alert icon or [getStatusBadge] the
    Error badge. The check icon goes with Completed exactly, and the
    progress row is shown for every record that is not Completed. *)
Theorem error_presentation_is_dead s f :
  reachable s -> f ∈ files s ->
  getStatusIcon (status f) <> AlertCircle /\
  getStatusBadge f <> nBadge "destructive" [nText "Error"] /\
  (getStatusIcon (status f) = CheckCircle <-> status f = completed) /\
  (showsProgress f = true <-> status f <> completed).
Proof.
  intros Hs Hf. pose proof (reachable_wf s Hs) as Hwf.
  rewrite Forall_forall in Hwf. pose proof (wf_no_error f (Hwf f Hf)) as He.
  unfold getStatusBadge, showsProgress. rewrite bool_decide_eq_true.
  destruct (status f) eqn:E; [| | |destruct He; reflexivity].
  - repeat split; try discriminate; auto.
  - repeat split; try discriminate; auto.
  - repeat split; try discriminate; auto;
      try (intros [H | H]; discriminate H);
      try (intros H; destruct H; reflexivity).
Qed.

Lemma error_presentation_is_dead_witness :
  getStatusIcon
    (status {| name := "A.fig"; size := "1.0MB"; status := uploading;
               progress := 0; issues := None |}) <> AlertCircle.
Proof.
  apply (error_presentation_is_dead (step (Submit "A.fig" (draws [])) init)).
  - apply reachable_step; [apply reachable_init|].
    apply validDraws_draws. constructor.
  - vm_compute. left.
Defined.

(** X12. For a Completed record of a reachable state the expression
    [file.issues && file.issues > 0 && <Badge>] is never an empty value:
    with a count from 1 to 7 it is the issues badge, and with the count 0
    it is the number 0 itself, which is put in the page as text. *)
Theorem issues_badge_shows_stray_zero s f :
  reachable s -> f ∈ files s -> status f = completed ->
  exists (k : Z) (child : node),
    issues f = Some k /\ (0 <= k < 8)%Z /\
    getStatusBadge f = nDiv [nBadge "secondary" [nText "Complete"]; child] /\
    rendersNothing child = false /\
    (k = 0%Z -> child = nNumber 0) /\
    ((0 < k)%Z -> child = nBadge "destructive" [nNumber k; nText " issues"]).
Proof.
  intros Hs Hf Hc. pose proof (reachable_wf s Hs) as Hwf.
  rewrite Forall_forall in Hwf.
  destruct (wf_completed f (Hwf f Hf) Hc) as (_ & k & Hk & Hrange).
  exists k. unfold getStatusBadge. rewrite Hc, Hk. simpl.
  unfold jsAnd. simpl.
  destruct (Z.eqb_spec k 0) as [-> | Hne]; simpl.
  - eexists. repeat split; try reflexivity; try lia; intros; lia.
  - assert (Hpos : (0 <? k)%Z = true) by (apply Z.ltb_lt; lia).
    rewrite Hpos. eexists.
    repeat split; try reflexivity; try lia; intros; lia.
Qed.

Lemma issues_badge_shows_stray_zero_witness :
  exists (k : Z) (child : node),
    issues {| name := "A.fig"; size := "1.0MB"; status := completed;
              progress := 100; issues := Some 0%Z |} = Some k /\
    (0 <= k < 8)%Z /\
    getStatusBadge {| name := "A.fig"; size := "1.0MB"; status := completed;
                      progress := 100; issues := Some 0%Z |} =
      nDiv [nBadge "secondary" [nText "Complete"]; child] /\
    rendersNothing child = false /\
    (k = 0%Z -> child = nNumber 0) /\
    ((0 < k)%Z -> child = nBadge "destructive" [nNumber k; nText " issues"]).
Proof.
  apply (issues_badge_shows_stray_zero (run reanalysed init)).
  - apply run_reachable; [apply reachable_init | apply reanalysed_valid].
  - vm_compute. right. left.
  - reflexivity.
Defined.

(** X13. The percentage shown for a record of a reachable state,
    [Math.round(file.progress)], is an integer from 0 to 100. *)
Theorem progress_percent_in_range s f :
  reachable s -> f ∈ files s ->
  (0 <= Math_round (progress f) <= 100)%Z.
Proof.
  intros Hs Hf. pose proof (reachable_wf s Hs) as Hwf.
  rewrite Forall_forall in Hwf. destruct (Hwf f Hf) as [Hlo Hhi _ _ _ _].
  unfold Math_round. split.
  - apply Qfloor_lower. change (inject_Z 0) with 0%Q. lra.
  - apply Z.lt_succ_r, Qfloor_upper.
    change (inject_Z (Z.succ 100)) with 101%Q. lra.
Qed.

Lemma progress_percent_in_range_witness :
  (0 <= Math_round (progress {| name := "A.fig"; size := "1.0MB";
                                status := uploading;
                                progress := 0 + (1 # 2) * 30;
                                issues := None |}) <= 100)%Z.
Proof.
  apply (progress_percent_in_range
           (run [Submit "A.fig" (draws []); Fire 0 (draws [1 # 2])] init)).
  - apply run_reachable; [apply reachable_init|]. valid_trace.
  - vm_compute. left.
Defined.

(** ** The aggregates of the report views *)

Lemma totalIssues_acc (categories : list Reports.category) (a : nat) :
  fold_left (fun sum cat => (sum + length (Reports.issues cat))%nat) categories a =
    (a + length (concat (map Reports.issues categories)))%nat.
Proof.
  revert a. induction categories as [|c l IH]; intros a; simpl.
  - lia.
  - rewrite IH, length_app. lia.
Qed.

Lemma highPriorityIssues_acc (categories : list Reports.category) (a : nat) :
  fold_left
    (fun sum cat =>
       (sum + length (filter (fun issue => Reports.severity issue = "high")
                             (Reports.issues cat)))%nat) categories a =
    (a + length (filter (fun issue => Reports.severity issue = "high")
                        (concat (map Reports.issues categories))))%nat.
Proof.
  revert a. induction categories as [|c l IH]; intros a; simpl.
  - lia.
  - rewrite IH, filter_app, length_app. lia.
Qed.

(** X14. For any list of categories, [totalIssues] is the number of all
    issues and [highPriorityIssues] the number of those with severity
    'high'; so the high-priority count never exceeds the total, and the
    alert (shown when it is positive) appears exactly when some issue is
    'high'. *)
Theorem high_priority_within_total (categories : list Reports.category) :
  Reports.totalIssues categories =
    length (concat (map Reports.issues categories)) /\
  Reports.highPriorityIssues categories =
    length (filter (fun issue => Reports.severity issue = "high")
                   (concat (map Reports.issues categories))) /\
  (Reports.highPriorityIssues categories <= Reports.totalIssues categories)%nat /\
  ((0 < Reports.highPriorityIssues categories)%nat <->
   exists cat issue, cat ∈ categories /\ issue ∈ Reports.issues cat /\
                     Reports.severity issue = "high").
Proof.
  unfold Reports.totalIssues, Reports.highPriorityIssues.
  rewrite totalIssues_acc, highPriorityIssues_acc. simpl.
  split; [reflexivity|]. split; [reflexivity|]. split; [apply length_filter|].
  split.
  - intros Hpos.
    destruct (filter _ _) as [|issue l] eqn:E; [simpl in Hpos; lia|].
    assert (Hin : issue ∈ filter (fun issue => Reports.severity issue = "high")
                    (concat (map Reports.issues categories)))
      by (rewrite E; left).
    apply list_elem_of_filter in Hin as [Hsev Hin].
    apply list_elem_of_In, in_concat in Hin as (l0 & Hl0 & Hin).
    apply in_map_iff in Hl0 as (cat & <- & Hcat).
    exists cat, issue. repeat split; auto; apply list_elem_of_In; assumption.
  - intros (cat & issue & Hcat & Hin & Hsev).
    assert (H : issue ∈ filter (fun issue => Reports.severity issue = "high")
                  (concat (map Reports.issues categories))).
    { apply list_elem_of_filter. split; [exact Hsev|].
      apply list_elem_of_In, in_concat. exists (Reports.issues cat).
      split; [apply in_map, list_elem_of_In, Hcat | apply list_elem_of_In, Hin]. }
    destruct (filter _ _); [inversion H | simpl; lia].
Qed.

Lemma scoreSum_acc (categories : list Reports.category) (lo hi a : Z) :
  (forall cat, cat ∈ categories -> (lo <= Reports.score cat <= hi)%Z) ->
  (a + lo * Z.of_nat (length categories) <=
   fold_left (fun sum cat => (sum + Reports.score cat)%Z) categories a <=
   a + hi * Z.of_nat (length categories))%Z.
Proof.
  revert a. induction categories as [|c l IH]; intros a H.
  - simpl. lia.
  - simpl fold_left. specialize (IH (a + Reports.score c)%Z).
    assert (Hc : (lo <= Reports.score c <= hi)%Z) by (apply H; left).
    assert (Hl : forall cat, cat ∈ l -> (lo <= Reports.score cat <= hi)%Z)
      by (intros; apply H; right; assumption).
    specialize (IH Hl). rewrite length_cons, Nat2Z.inj_succ. lia.
Qed.

(** X15. [overallScore] is [NaN] for no category and for no other list;
    for a non-empty list whose scores all lie between two integers, the
    rounded average lies between them too (between 0 and 100 for
    percentages). *)
Theorem overallScore_between_scores (categories : list Reports.category)
    (lo hi : Z) :
  (Reports.overallScore categories = None <-> categories = []) /\
  (categories <> [] ->
   (forall cat, cat ∈ categories -> (lo <= Reports.score cat <= hi)%Z) ->
   exists v, Reports.overallScore categories = Some v /\ (lo <= v <= hi)%Z).
Proof.
  split.
  - destruct categories; simpl; split; intros H; congruence.
  - intros Hne Hb. destruct categories as [|c l]; [destruct Hne; reflexivity|].
    eexists. split; [reflexivity|].
    pose proof (scoreSum_acc (c :: l) lo hi 0 Hb) as Hsum.
    fold (Reports.scoreSum (c :: l)) in Hsum.
    set (n := Z.of_nat (length (c :: l))) in *.
    set (sum := Reports.scoreSum (c :: l)) in *.
    assert (Hn : (0 < n)%Z) by (unfold n; simpl; lia).
    assert (HnQ : (0 < inject_Z n)%Q) by (rewrite Zlt_Qlt in Hn; exact Hn).
    assert (Hlo : (inject_Z lo <= inject_Z sum / inject_Z n)%Q).
    { apply Qle_shift_div_l; [exact HnQ|].
      rewrite <- inject_Z_mult, <- Zle_Qle. lia. }
    assert (Hhi : (inject_Z sum / inject_Z n <= inject_Z hi)%Q).
    { apply Qle_shift_div_r; [exact HnQ|].
      rewrite <- inject_Z_mult, <- Zle_Qle. lia. }
    unfold Math_round. split.
    + apply Qfloor_lower. lra.
    + apply Z.lt_succ_r, Qfloor_upper. unfold Z.succ.
      rewrite inject_Z_plus. change (inject_Z 1) with 1%Q. lra.
Qed.

Lemma overallScore_between_scores_witness :
  exists v,
    Reports.overallScore
      [Reports.mkCategory "visual" "Visual" 72 [];
       Reports.mkCategory "motor" "Motor" 85 []] = Some v /\
    (0 <= v <= 100)%Z.
Proof.
  destruct (overallScore_between_scores
              [Reports.mkCategory "visual" "Visual" 72 [];
               Reports.mkCategory "motor" "Motor" 85 []] 0 100) as (_ & H).
  apply H; [discriminate|].
  intros cat Hcat.
  apply elem_of_cons in Hcat as [-> | Hcat]; [simpl; lia|].
  apply list_elem_of_singleton in Hcat as ->. simpl. lia.
Defined.

(** X16. The severity colours of the three report views agree on every
    severity but 'critical': [SecurityFindings] shows it as 'destructive',
    the other two views fall to their default and show it as 'secondary',
    the colour of 'low'. In the other two views 'destructive' is the
    colour of 'high' only. *)
Theorem severity_colours_differ_on_critical (sev : string) :
  (sev <> "critical" ->
   Reports.getSeverityColor_security sev = Reports.getSeverityColor sev) /\
  Reports.getSeverityColor_security "critical" = "destructive" /\
  Reports.getSeverityColor "critical" = Reports.getSeverityColor "low" /\
  (Reports.getSeverityColor sev = "destructive" <-> sev = "high").
Proof.
  split; [|split; [reflexivity|split; [reflexivity|]]].
  - intros Hne. unfold Reports.getSeverityColor_security.
    rewrite decide_False by exact Hne. reflexivity.
  - unfold Reports.getSeverityColor.
    repeat (destruct (decide _)); split; intros H; try discriminate H;
      try reflexivity; congruence.
Qed.

Lemma severity_colours_differ_on_critical_witness :
  Reports.getSeverityColor_security "medium" = Reports.getSeverityColor "medium".
Proof.
  destruct (severity_colours_differ_on_critical "medium") as (H & _).
  apply H. discriminate.
Defined.

(** ** Runs in which one name is submitted once *)
























(** ** The last progress value of a phase *)


